(** * Paired image / keypoint transforms of human36m/utils/data_transforms.py

    A shallow embedding of the transform classes ([Compose], [CropToTarget],
    [Scale], [RandomCrop], [RandomHorizontalFlip], [Normalize], [ToTensor],
    [ToPILImage]) and the properties of the keypoint bookkeeping they do.

    Conventions of the embedding.
    - Python [int] is [Z].  Python and numpy floating-point numbers are
      exact rationals ([Q]); the only place where rounding is kept explicit
      is the float32 tensor arithmetic of [ToTensor], [ToPILImage] and
      [Normalize], which goes through a rounding operator [rnd].
    - A keypoint array (numpy, shape N x 2) is a list of pairs; the code
      updates it in place and returns it, the embedding returns the new value.
    - A raised Python exception is the [Raise] case of [result].
    - The process-wide generator of the [random] module is an explicit state,
      threaded through the two randomized transforms. *)

From Stdlib Require Import ZArith QArith Qabs Qround Qminmax.
From Stdlib Require Import List String Bool Lia Lqa.
Import ListNotations.

Local Open Scope Z_scope.

(** ** Python values and exceptions *)

Inductive exn : Type :=
| ValueError
| ZeroDivisionError
| AssertionError
| AttributeError
| IndexError
| RuntimeError.

Inductive result (A : Type) : Type :=
| Ok (a : A)
| Raise (e : exn).

Arguments Ok {A} a.
Arguments Raise {A} e.

Definition bind {A B : Type} (r : result A) (k : A -> result B) : result B :=
  match r with
  | Ok a => k a
  | Raise e => Raise e
  end.

Notation "x <- r ;; k" := (bind r (fun x => k))
  (at level 61, r at next level, right associativity).

(** [int(q)] of a float: truncation toward zero. *)
Definition py_int (q : Q) : Z := Z.quot (Qnum q) (Zpos (Qden q)).

(** [a / b] under [from __future__ import division], on two ints. *)
Definition truediv (a b : Z) : result Q :=
  if b =? 0 then Raise ZeroDivisionError else Ok (inject_Z a / inject_Z b)%Q.

Definition Qlt_bool (a b : Q) : bool := negb (Qle_bool b a).

(** ** Keypoint arrays (numpy, shape N x 2) *)

Definition keypoint : Type := (Q * Q)%type.
Definition target : Type := list keypoint.

Module np.

(** [np.max(target, axis=0)] and [np.min(target, axis=0)]: the column-wise
    extrema, [ValueError] on an array with no row. *)
Definition max (t : target) : result keypoint :=
  match t with
  | [] => Raise ValueError
  | k :: t' =>
      Ok (fold_left (fun m p => (Qmax (fst m) (fst p), Qmax (snd m) (snd p))) t' k)
  end.

Definition min (t : target) : result keypoint :=
  match t with
  | [] => Raise ValueError
  | k :: t' =>
      Ok (fold_left (fun m p => (Qmin (fst m) (fst p), Qmin (snd m) (snd p))) t' k)
  end.

(** [target[:, 0] -= c] and [target[:, 1] -= c]. *)
Definition isub0 (t : target) (c : Q) : target :=
  map (fun p => (fst p - c, snd p)%Q) t.
Definition isub1 (t : target) (c : Q) : target :=
  map (fun p => (fst p, snd p - c)%Q) t.

(** [target[:, 0] *= c] and [target[:, 1] *= c]. *)
Definition imul0 (t : target) (c : Q) : target :=
  map (fun p => (fst p * c, snd p)%Q) t.
Definition imul1 (t : target) (c : Q) : target :=
  map (fun p => (fst p, snd p * c)%Q) t.

(** [target[:, 0] /= c] and [target[:, 1] /= c].  On a zero divisor numpy
    gives inf or nan, which the rationals do not have: what is proved of a
    quotient takes the divisor different from zero. *)
Definition idiv0 (t : target) (c : Q) : target :=
  map (fun p => (fst p / c, snd p)%Q) t.
Definition idiv1 (t : target) (c : Q) : target :=
  map (fun p => (fst p, snd p / c)%Q) t.

(** [target[target < 0] = 0]: every entry, of both columns. *)
Definition zero_negative (t : target) : target :=
  map (fun p => (if Qlt_bool (fst p) 0 then 0%Q else fst p,
                 if Qlt_bool (snd p) 0 then 0%Q else snd p)) t.

(** [target[:, 0] = np.where(target[:, 0] > b, 0, target[:, 0])], and the
    same on column 1. *)
Definition where_gt0 (t : target) (b : Q) : target :=
  map (fun p => (if Qlt_bool b (fst p) then 0%Q else fst p, snd p)) t.
Definition where_gt1 (t : target) (b : Q) : target :=
  map (fun p => (fst p, if Qlt_bool b (snd p) then 0%Q else snd p)) t.

End np.

(** ** PIL images

    An image is its mode string, its size [(w, h)] and its samples:
    [getpixel x y b] is band [b] of the pixel in column [x] and row [y],
    for [0 <= x < w] and [0 <= y < h]; the image has no sample elsewhere.
    The embedding covers the modes whose bands are one byte each (L, P, RGB,
    RGBA, CMYK, YCbCr, ...), for which [tobytes()] is the row-major
    interleaving of the bands, and the integer modes I and I;16. *)

Record Image : Type := mkImage {
  mode : string;
  size : Z * Z;
  getpixel : Z -> Z -> nat -> Q
}.

Module PIL.

Definition in_image (img : Image) (x y : Z) : bool :=
  (0 <=? x) && (x <? fst (size img)) && (0 <=? y) && (y <? snd (size img)).

(** [img.crop((l, u, r, d))]: the window may leave the image, what lies
    outside the source is zero.  The result has samples in its own frame
    only; [getpixel] is 0 elsewhere. *)
Definition crop (img : Image) (box : Z * Z * Z * Z) : Image :=
  let '(l, u, r, d) := box in
  mkImage (mode img) (Z.max 0 (r - l), Z.max 0 (d - u))
    (fun x y b => if (0 <=? x) && (x <? Z.max 0 (r - l))
                     && (0 <=? y) && (y <? Z.max 0 (d - u))
                     && in_image img (x + l) (y + u)
                  then getpixel img (x + l) (y + u) b else 0%Q).

(** [ImageOps.expand(img, border=p, fill=0)]. *)
Definition expand (img : Image) (border : Z) : Image :=
  mkImage (mode img) (fst (size img) + 2 * border, snd (size img) + 2 * border)
    (fun x y b => if in_image img (x - border) (y - border)
                  then getpixel img (x - border) (y - border) b else 0%Q).

(** [img.transpose(Image.FLIP_LEFT_RIGHT)]. *)
Definition flip_left_right (img : Image) : Image :=
  mkImage (mode img) (size img)
    (fun x y b => getpixel img (fst (size img) - 1 - x) y b).

(** [Image.new(mode, (w, h), color)]: every sample is [color]. *)
Definition new (m : string) (sz : Z * Z) (color : Q) : Image :=
  mkImage m sz (fun _ _ _ => color).

(** [Image.BILINEAR]. *)
Definition BILINEAR : Z := 2.

End PIL.

(** ** CropToTarget *)

Module CropToTarget.

Record t : Type := init { padding : Z }.

(** Lines 38-48 of [__call__]: the bounding box of the keypoints, grown by
    the padding when the grown box stays inside the image. *)
Definition bounding_box (self : t) (img : Image) (tgt : target)
  : result (keypoint * keypoint) :=
  max_coords <- np.max tgt ;;
  min_coords <- np.min tgt ;;
  let '(w, h) := size img in
  let p := inject_Z (padding self) in
  if negb (Qlt_bool (fst min_coords - p) 0
           || Qlt_bool (snd min_coords - p) 0
           || Qlt_bool (inject_Z w) (fst max_coords + p)
           || Qlt_bool (inject_Z h) (snd max_coords + p))
  then Ok ((fst min_coords - p, snd min_coords - p)%Q,
           (fst max_coords + p, snd max_coords + p)%Q)
  else Ok (min_coords, max_coords).

Section Call.

(** How [Image.crop] turns a fractional box coordinate into a pixel
    index is PIL's business. *)
Variable box_round : Q -> Z.

Definition call (self : t) (img : Image) (tgt : target)
  : result (Image * target) :=
  box <- bounding_box self img tgt ;;
  let '(min_coords, max_coords) := box in
  let '(w, h) := size img in
  if Qeq_bool (inject_Z w) (fst max_coords)
     && Qeq_bool (inject_Z h) (snd max_coords)
  then Ok (img, tgt)
  else
    let img := PIL.crop img (box_round (fst min_coords), box_round (snd min_coords),
                             box_round (fst max_coords), box_round (snd max_coords)) in
    let tgt := np.isub0 tgt (fst min_coords) in
    let tgt := np.isub1 tgt (snd min_coords) in
    let tgt := np.zero_negative tgt in
    let tgt := np.where_gt0 tgt (fst max_coords) in
    let tgt := np.where_gt1 tgt (snd max_coords) in
    Ok (img, tgt).

End Call.

End CropToTarget.

(** ** Constructor arguments

    [Scale] and [RandomCrop] take a [size] that is either a number or a
    sequence; the constructors inspect which. *)

Inductive pyobj : Type :=
| PyInt (n : Z)
| PyFloat (q : Q)
| PySeq (l : list Z).

(** ** Scale *)

Module Scale.

(** [img.size], which the field [size] of the transform hides below. *)
Local Notation img_size := size (only parsing).

Inductive size_t : Type :=
| SizeInt (n : Z)
| SizePair (ow oh : Z).

Record t : Type := mk { size : size_t; interpolation : Z }.

(** [__init__]: the assertion admits an [int] or an iterable of length 2. *)
Definition init (sz : pyobj) (interp : Z) : result t :=
  match sz with
  | PyInt n => Ok (mk (SizeInt n) interp)
  | PySeq [ow; oh] => Ok (mk (SizePair ow oh) interp)
  | _ => Raise AssertionError
  end.

Section Call.

(** [resample filter img (ow, oh)] stands for the samples PIL's
    [img.resize((ow, oh), filter)] computes. *)
Variable resample : Z -> Image -> Z * Z -> Z -> Z -> nat -> Q.

(** [img.resize((ow, oh), filter)]: PIL refuses a width or height below 1
    with [ValueError]. *)
Definition resize (img : Image) (sz : Z * Z) (filter : Z) : result Image :=
  if (fst sz <? 1) || (snd sz <? 1) then Raise ValueError
  else Ok (mkImage (mode img) sz (resample filter img sz)).

Definition call (self : t) (img : Image) (tgt : target)
  : result (Image * target) :=
  match size self with
  | SizeInt s =>
      let '(w, h) := img_size img in
      if ((w <=? h) && (w =? s)) || ((h <=? w) && (h =? s))
      then Ok (img, tgt)
      else if w <? h then
        let ow := s in
        q <- truediv (s * h) w ;;
        let oh := py_int q in
        img <- resize img (ow, oh) (interpolation self) ;;
        let tgt := np.imul0 tgt (inject_Z ow) in
        let tgt := np.imul1 tgt (inject_Z oh) in
        Ok (img, tgt)
      else
        let oh := s in
        q <- truediv (s * w) h ;;
        let ow := py_int q in
        let tgt := np.imul0 tgt (inject_Z ow) in
        let tgt := np.imul1 tgt (inject_Z oh) in
        img <- resize img (ow, oh) (interpolation self) ;;
        Ok (img, tgt)
  | SizePair sw sh =>
      let '(w, h) := img_size img in
      img <- resize img (sw, sh) (interpolation self) ;;
      rx <- truediv sw w ;;
      let tgt := np.imul0 tgt rx in
      ry <- truediv sh h ;;
      let tgt := np.imul1 tgt ry in
      Ok (img, tgt)
  end.

End Call.

End Scale.

(** ** The [random] module

    The generator is the stream of raw 53-bit words it has still to hand
    out; every call of [random.random] or [random.randint] takes the next
    word.  An exception leaves the generator as it is. *)

Definition rng : Type := nat -> Z.

Definition Rand (A : Type) : Type := rng -> result A * rng.

Module random.

Definition advance (g : rng) : rng := fun n => g (S n).

Definition word (g : rng) : Z := g O mod 2 ^ 53.

(** [random.random()]: uniform on the 2^53 multiples of 2^-53 in [0, 1). *)
Definition random : Rand Q :=
  fun g => (Ok (word g # 2 ^ 53), advance g).

(** [random.randint(a, b)]: uniform on [a .. b], [ValueError] on an
    empty range. *)
Definition randint (a b : Z) : Rand Z :=
  fun g => if b <? a then (Raise ValueError, g)
           else (Ok (a + word g mod (b - a + 1)), advance g).

End random.

Definition rret {A : Type} (r : result A) : Rand A := fun g => (r, g).

Definition rbind {A B : Type} (m : Rand A) (k : A -> Rand B) : Rand B :=
  fun g => match m g with
           | (Ok a, g') => k a g'
           | (Raise e, g') => (Raise e, g')
           end.

Notation "x <~ m ;; k" := (rbind m (fun x => k))
  (at level 61, m at next level, right associativity).

(** ** RandomCrop *)

Module RandomCrop.

(** [img.size], which the field [size] of the transform hides below. *)
Local Notation img_size := size (only parsing).

Record t : Type := mk { size : list Z; padding : Z }.

(** [__init__]: a number becomes the square [(int(size), int(size))], any
    other argument is stored as it is. *)
Definition init (sz : pyobj) (padding : Z) : t :=
  match sz with
  | PyInt n => mk [n; n] padding
  | PyFloat q => mk [py_int q; py_int q] padding
  | PySeq l => mk l padding
  end.

Definition call (self : t) (img : Image) (tgt : target)
  : Rand (Image * target) :=
  let img := if padding self >? 0 then PIL.expand img (padding self) else img in
  let '(w, h) := img_size img in
  match size self with
  | [th; tw] =>
      if (w =? th) && (h =? th) then rret (Ok (img, tgt))
      else
        x1 <~ random.randint 0 (w - tw) ;;
        y1 <~ random.randint 0 (h - th) ;;
        let img := PIL.crop img (x1, y1, x1 + tw, y1 + th) in
        let tgt := np.isub0 tgt (inject_Z x1) in
        let tgt := np.isub1 tgt (inject_Z y1) in
        let tgt := np.zero_negative tgt in
        let tgt := np.where_gt0 tgt (inject_Z (x1 + tw)) in
        let tgt := np.where_gt1 tgt (inject_Z (y1 + th)) in
        rret (Ok (img, tgt))
  | _ => rret (Raise ValueError)   (* [th, tw = self.size] cannot unpack *)
  end.

End RandomCrop.

(** ** RandomHorizontalFlip *)

Module RandomHorizontalFlip.

(** [target[:, 0] = w - target[:, 0]]. *)
Definition mirror (w : Z) (tgt : target) : target :=
  map (fun p => (inject_Z w - fst p, snd p)%Q) tgt.

Definition call (img : Image) (tgt : target) : Rand (Image * target) :=
  u <~ random.random ;;
  if Qlt_bool u (1 # 2) then
    let '(w, h) := size img in
    let img := PIL.flip_left_right img in
    let tgt := mirror w tgt in
    rret (Ok (img, tgt))
  else rret (Ok (img, tgt)).

End RandomHorizontalFlip.

(** ** Tensors and arrays

    A torch tensor of shape C x H x W is the list of its C planes [t[0]],
    [t[1]], ..., each a function of the row and the column.  A numpy array
    of shape H x W x C (or H x W) is its shape and the function of row,
    column and channel. *)

Inductive dtype : Type := uint8 | int16 | int32 | int64 | float32 | float64.

Definition dtype_eqb (a b : dtype) : bool :=
  match a, b with
  | uint8, uint8 | int16, int16 | int32, int32
  | int64, int64 | float32, float32 | float64, float64 => true
  | _, _ => false
  end.

Definition is_float (d : dtype) : bool :=
  match d with
  | float32 | float64 => true
  | _ => false
  end.

Definition plane : Type := Z -> Z -> Q.

Record Tensor : Type := mkTensor {
  t_dtype : dtype;
  planes : list plane;
  t_height : Z;
  t_width : Z
}.

Record ndarray : Type := mkArray {
  a_dtype : dtype;
  shape : list Z;
  item : Z -> Z -> nat -> Q
}.

(** What a transform may be handed as its image. *)
Inductive pic : Type :=
| PILImage (img : Image)
| Array (a : ndarray)
| TorchTensor (t : Tensor).

(** [a.shape[i]]. *)
Definition shape_at (a : ndarray) (i : nat) : result Z :=
  match nth_error (shape a) i with
  | Some n => Ok n
  | None => Raise IndexError
  end.

Module torch.

Section Float32.

(** Rounding of a real result to float32. *)
Variable rnd : Q -> Q.

Definition pointwise (f : Q -> Q) (t : Tensor) (d : dtype) : Tensor :=
  mkTensor d (map (fun (p : plane) y x => f (p y x)) (planes t))
    (t_height t) (t_width t).

(** [t.float()]: the integers of a byte or short tensor are float32
    values already, anything wider is rounded. *)
Definition float (t : Tensor) : Tensor :=
  match t_dtype t with
  | uint8 | int16 | float32 => pointwise (fun v => v) t float32
  | _ => pointwise rnd t float32
  end.

(** [t.div(c)] and [t.mul(c)] on a float tensor. *)
Definition div (t : Tensor) (c : Q) : Tensor :=
  pointwise (fun v => rnd (v / c)) t (t_dtype t).
Definition mul (t : Tensor) (c : Q) : Tensor :=
  pointwise (fun v => rnd (v * c)) t (t_dtype t).

(** [t.byte()]: the fraction is dropped, the integer wraps to 8 bits. *)
Definition byte (t : Tensor) : Tensor :=
  pointwise (fun v => inject_Z (py_int v mod 256)) t uint8.

(** [p.sub_(m).div_(s)] on one plane of a float tensor. *)
Definition sub_div_ (p : plane) (m s : Q) : plane :=
  fun y x => rnd (rnd (p y x - m) / s).

End Float32.

(** [torch.from_numpy(a.transpose((2, 0, 1)))] of an H x W x C array. *)
Definition from_numpy_chw (a : ndarray) : result Tensor :=
  match shape a with
  | [h; w; c] =>
      Ok (mkTensor (a_dtype a)
            (map (fun b y x => item a y x b) (seq 0 (Z.to_nat c))) h w)
  | _ => Raise ValueError
  end.

(** [np.transpose(t.numpy(), (1, 2, 0))] of a C x H x W tensor. *)
Definition numpy_hwc (t : Tensor) : ndarray :=
  mkArray (t_dtype t)
    [t_height t; t_width t; Z.of_nat (List.length (planes t))]
    (fun y x b => nth b (planes t) (fun _ _ => 0%Q) y x).

End torch.

(** ** Normalize *)

Module Normalize.

Record t : Type := init { mean : list Q; std : list Q }.

Section Call.

Variable rnd : Q -> Q.

(** [for t, m, s in zip(tensor, self.mean, self.std): t.sub_(m).div_(s)]:
    the loop ends with the shortest of the three, the planes it has not
    reached stay as they are. *)
Fixpoint loop (ts : list plane) (ms ss : list Q) : list plane :=
  match ts, ms, ss with
  | p :: ts', m :: ms', s :: ss' =>
      torch.sub_div_ rnd p m s :: loop ts' ms' ss'
  | _, _, _ => ts
  end.

(** The loop body runs at least once. *)
Definition enters (ts : list plane) (ms ss : list Q) : bool :=
  match ts, ms, ss with
  | _ :: _, _ :: _, _ :: _ => true
  | _, _, _ => false
  end.

(** The in-place [sub_] and [div_] with a float operand are defined on
    float tensors; on a byte or int tensor the first pass through the loop
    body raises [RuntimeError]. *)
Definition call (self : t) (tensor : Tensor) (tgt : target)
  : result (Tensor * target) :=
  if enters (planes tensor) (mean self) (std self)
     && negb (is_float (t_dtype tensor))
  then Raise RuntimeError
  else
    Ok (mkTensor (t_dtype tensor) (loop (planes tensor) (mean self) (std self))
          (t_height tensor) (t_width tensor), tgt).

End Call.

End Normalize.

(** ** ToTensor *)

(** The modes whose [tobytes()] holds one byte for each of the
    [len(mode)] bands of a pixel (three for YCbCr). *)
Definition byte_modes : list string :=
  ["L"; "P"; "RGB"; "RGBA"; "CMYK"; "YCbCr"; "LAB"; "HSV";
   "LA"; "PA"; "La"; "RGBX"; "RGBa"]%string.

Definition byte_mode (m : string) : bool := existsb (String.eqb m) byte_modes.

(** A 16-bit sample read as [np.int16]: the values from 32768 on come out
    negative. *)
Definition as_int16 (v : Q) : Q :=
  inject_Z ((Qfloor v + 32768) mod 65536 - 32768).

Module ToTensor.

Section Call.

Variable rnd : Q -> Q.

Definition call (p : pic) (tgt : target) : result (Tensor * target) :=
  match p with
  | Array a =>
      h <- shape_at a 0 ;;
      w <- shape_at a 1 ;;
      let tgt := np.idiv0 tgt (inject_Z w) in
      let tgt := np.idiv1 tgt (inject_Z h) in
      img <- torch.from_numpy_chw a ;;
      Ok (torch.div rnd (torch.float rnd img) 255, tgt)
  | PILImage im =>
      let d := if String.eqb (mode im) "I" then int32
               else if String.eqb (mode im) "I;16" then int16
               else uint8 in
      let nchannel := if String.eqb (mode im) "YCbCr" then 3%nat
                      else if String.eqb (mode im) "I;16" then 1%nat
                      else String.length (mode im) in
      (* view(h, w, nchannel) needs a buffer of h * w * nchannel elements:
         the modes I and I;16, read as integers, and the byte modes *)
      if negb (String.eqb (mode im) "I" || String.eqb (mode im) "I;16"
               || byte_mode (mode im))
      then Raise RuntimeError
      else
        (* then the two transposes to C x H x W *)
        let img := mkTensor d
                     (map (fun b y x =>
                             if String.eqb (mode im) "I;16"
                             then as_int16 (getpixel im x y b)
                             else getpixel im x y b) (seq 0 nchannel))
                     (snd (size im)) (fst (size im)) in
        let h := t_height img in
        let w := t_width img in
        let tgt := np.idiv0 tgt (inject_Z w) in
        let tgt := np.idiv1 tgt (inject_Z h) in
        if dtype_eqb (t_dtype img) uint8
        then Ok (torch.div rnd (torch.float rnd img) 255, tgt)
        else Ok (img, tgt)
  | TorchTensor _ => Raise AttributeError
  end.

End Call.

End ToTensor.

(** ** ToPILImage *)

Module ToPILImage.

(** [Image.fromarray(npimg, mode=mode)].  A one-band mode takes an
    H x W array (read as unsigned 16-bit for I;16).  Mode RGB takes an
    H x W x C array and reads its buffer three bytes to the pixel: with
    [C = 3] these are the three channels, with fewer there is not enough
    data ([ValueError]), with more the pixels are cut from the run of all
    channels.  Any other shape is refused. *)
Definition fromarray (a : ndarray) (m : string) : result Image :=
  match shape a with
  | [h; w] =>
      if String.eqb m "RGB" then Raise ValueError
      else Ok (mkImage m (w, h)
                 (fun x y b => if String.eqb m "I;16"
                               then inject_Z (Qfloor (item a y x b) mod 65536)
                               else item a y x b))
  | [h; w; c] =>
      if negb (String.eqb m "RGB") then Raise ValueError
      else if c <? 3 then Raise ValueError
      else if c =? 3 then Ok (mkImage m (w, h) (fun x y b => item a y x b))
      else Ok (mkImage m (w, h)
                 (fun x y b =>
                    let i := (y * w + x) * 3 + Z.of_nat b in
                    item a (i / (w * c)) ((i / c) mod w) (Z.to_nat (i mod c))))
  | _ => Raise ValueError
  end.

(** [npimg[:, :, 0]]. *)
Definition channel0 (a : ndarray) : ndarray :=
  mkArray (a_dtype a) (firstn 2 (shape a) ++ skipn 3 (shape a))
    (fun y x _ => item a y x O).

Section Call.

Variable rnd : Q -> Q.

Definition call (p : pic) (tgt : target) : result (Image * target) :=
  let npimg := p in
  let p := match p with
           | TorchTensor t =>
               if dtype_eqb (t_dtype t) float32
               then TorchTensor (torch.byte (torch.mul rnd t 255))
               else p
           | _ => p
           end in
  let npimg := match p with
               | TorchTensor t => Array (torch.numpy_hwc t)
               | _ => npimg
               end in
  match npimg with
  | Array npimg =>
      c <- shape_at npimg 2 ;;
      let '(npimg, m) :=
        if c =? 1 then
          let npimg := channel0 npimg in
          let m := if dtype_eqb (a_dtype npimg) uint8 then Some "L"%string else None in
          let m := if dtype_eqb (a_dtype npimg) int16 then Some "I;16"%string else m in
          let m := if dtype_eqb (a_dtype npimg) int32 then Some "I"%string
                   else if dtype_eqb (a_dtype npimg) float32 then Some "F"%string
                   else m in
          (npimg, m)
        else
          (npimg, if dtype_eqb (a_dtype npimg) uint8 then Some "RGB"%string else None) in
      match m with
      | Some m => img <- fromarray npimg m ;; Ok (img, tgt)
      | None => Raise AssertionError
      end
  | _ => Raise AssertionError
  end.

End Call.

End ToPILImage.

(** ** Compose *)

Definition Transform : Type := pic -> target -> Rand (pic * target).

Module Compose.

Fixpoint call (transforms : list Transform) (img : pic) (tgt : target)
  : Rand (pic * target) :=
  match transforms with
  | [] => rret (Ok (img, tgt))
  | t :: rest => r <~ t img tgt ;; call rest (fst r) (snd r)
  end.

End Compose.

(** ** Observations on what a call returns *)

Definition returned_target {I : Type} (r : result (I * target)) : option target :=
  match r with
  | Ok (_, t) => Some t
  | Raise _ => None
  end.

Definition returned_size (r : result (Image * target)) : option (Z * Z) :=
  match r with
  | Ok (img, _) => Some (size img)
  | Raise _ => None
  end.

(** A keypoint lies in the frame of a [w] x [h] image. *)
Definition in_frame (sz : Z * Z) (p : keypoint) : Prop :=
  (0 <= fst p <= inject_Z (fst sz))%Q /\ (0 <= snd p <= inject_Z (snd sz))%Q.

(** The box from [mn] to [mx], grown by [p] on every side, lies within an
    image of size [sz]. *)
Definition padded_box_fits (p : Q) (sz : Z * Z) (mn mx : keypoint) : Prop :=
  (0 <= fst mn - p)%Q /\ (0 <= snd mn - p)%Q
  /\ (fst mx + p <= inject_Z (fst sz))%Q /\ (snd mx + p <= inject_Z (snd sz))%Q.

(** Rounding to nearest in float32 moves a value by at most 2^-24 of its
    magnitude. *)
Definition float32_rounding (rnd : Q -> Q) : Prop :=
  forall q, (Qabs (rnd q - q) <= (1 # 2 ^ 24) * Qabs q)%Q.

(** Every sample of the image is a byte. *)
Definition eight_bit (img : Image) : Prop :=
  forall x y b,
    0 <= x < fst (size img) -> 0 <= y < snd (size img) ->
    (b < String.length (mode img))%nat ->
    exists v, 0 <= v <= 255 /\ getpixel img x y b = inject_Z v.

(** [ToTensor] followed by [ToPILImage] on [img] and [tgt]: both calls
    return; the keypoints leave [ToTensor] divided by the width and the
    height and leave [ToPILImage] as they entered it; the image comes back
    with its mode and size, and every byte comes back as itself or as the
    byte just below. *)
Definition roundtrip_preserves (rnd : Q -> Q) (img : Image) (tgt : target) : Prop :=
  exists t tgt' out,
    ToTensor.call rnd (PILImage img) tgt = Ok (t, tgt')
    /\ tgt' = map (fun p => (fst p / inject_Z (fst (size img)),
                             snd p / inject_Z (snd (size img)))%Q) tgt
    /\ ToPILImage.call rnd (TorchTensor t) tgt' = Ok (out, tgt')
    /\ mode out = mode img
    /\ size out = size img
    /\ forall x y b,
         0 <= x < fst (size img) -> 0 <= y < snd (size img) ->
         (b < String.length (mode img))%nat ->
         exists v v',
           getpixel img x y b = inject_Z v
           /\ getpixel out x y b = inject_Z v'
           /\ v - 1 <= v' <= v.

(** [ToTensor] and [ToPILImage] as stages of a pipeline: [Compose] calls
    each stage on whatever the stage before it returned. *)
Definition ToTensor_stage (rnd : Q -> Q) : Transform :=
  fun p tgt => rret (r <- ToTensor.call rnd p tgt ;; Ok (TorchTensor (fst r), snd r)).

Definition ToPILImage_stage (rnd : Q -> Q) : Transform :=
  fun p tgt => rret (r <- ToPILImage.call rnd p tgt ;; Ok (PILImage (fst r), snd r)).

(** Band 0 of every pixel of the image is a whole number from [lo] up to,
    not including, [hi]. *)
Definition samples_in (lo hi : Z) (img : Image) : Prop :=
  forall x y,
    0 <= x < fst (size img) -> 0 <= y < snd (size img) ->
    exists v, lo <= v < hi /\ getpixel img x y O = inject_Z v.

(** A generator whose next words are the given ones (zero afterwards). *)
Definition rng_of (ws : list Z) : rng := fun n => nth n ws 0.

(** * Properties *)

(** ** Elementary facts *)

Lemma Qlt_bool_true (a b : Q) : Qlt_bool a b = true <-> (a < b)%Q.
Proof.
  unfold Qlt_bool. rewrite negb_true_iff.
  split; intros H.
  - apply Qnot_le_lt. intros Hle. apply Qle_bool_iff in Hle. congruence.
  - destruct (Qle_bool b a) eqn:E; [|reflexivity].
    apply Qle_bool_iff in E. apply Qle_not_lt in E. contradiction.
Qed.

Lemma Qlt_bool_false (a b : Q) : Qlt_bool a b = false <-> (b <= a)%Q.
Proof.
  unfold Qlt_bool. rewrite negb_false_iff. apply Qle_bool_iff.
Qed.

Lemma imul_both (tgt : target) (a b : Q) :
  np.imul1 (np.imul0 tgt a) b = map (fun p => (fst p * a, snd p * b)%Q) tgt.
Proof.
  unfold np.imul1, np.imul0. rewrite map_map. reflexivity.
Qed.

Lemma isub_both (tgt : target) (a b : Q) :
  np.isub1 (np.isub0 tgt a) b = map (fun p => (fst p - a, snd p - b)%Q) tgt.
Proof.
  unfold np.isub1, np.isub0. rewrite map_map. reflexivity.
Qed.

Lemma idiv_both (tgt : target) (a b : Q) :
  np.idiv1 (np.idiv0 tgt a) b = map (fun p => (fst p / a, snd p / b)%Q) tgt.
Proof.
  unfold np.idiv1, np.idiv0. rewrite map_map. reflexivity.
Qed.

(** ** Scale *)

Lemma resize_ok resample (img : Image) (ow oh filter : Z) :
  1 <= ow -> 1 <= oh ->
  Scale.resize resample img (ow, oh) filter
  = Ok (mkImage (mode img) (ow, oh) (resample filter img (ow, oh))).
Proof.
  intros Hw Hh. unfold Scale.resize. cbn [fst snd].
  replace (ow <? 1) with false by (symmetry; apply Z.ltb_ge; exact Hw).
  replace (oh <? 1) with false by (symmetry; apply Z.ltb_ge; exact Hh).
  reflexivity.
Qed.

(** What the single-int branch does to the keypoints of a portrait image:
    it multiplies them by the output size itself. *)
Lemma Scale_int_portrait resample (s interp : Z) (img : Image) (tgt : target) :
  fst (size img) < snd (size img) ->
  fst (size img) <> s ->
  fst (size img) <> 0 ->
  let oh := py_int (inject_Z (s * snd (size img)) / inject_Z (fst (size img))) in
  1 <= s -> 1 <= oh ->
  Scale.call resample (Scale.mk (Scale.SizeInt s) interp) img tgt
  = Ok (mkImage (mode img) (s, oh) (resample interp img (s, oh)),
        map (fun p => (fst p * inject_Z s, snd p * inject_Z oh)%Q) tgt).
Proof.
  intros Hlt Hs Hw oh Hs1 Hoh. unfold Scale.call. cbn [Scale.size Scale.interpolation].
  destruct (size img) as [w h] eqn:E. cbn [fst snd] in *.
  replace ((w <=? h) && (w =? s)) with false
    by (symmetry; apply andb_false_iff; right; apply Z.eqb_neq; exact Hs).
  replace (h <=? w) with false by (symmetry; apply Z.leb_gt; exact Hlt).
  cbn [andb orb].
  replace (w <? h) with true by (symmetry; apply Z.ltb_lt; exact Hlt).
  unfold truediv.
  replace (w =? 0) with false by (symmetry; apply Z.eqb_neq; exact Hw).
  cbn [bind]. fold oh. rewrite resize_ok by assumption.
  cbn [bind]. rewrite imul_both. reflexivity.
Qed.

(** C1.  The ratio law is not what the single-int branch computes.  For
    [Scale(256)] on a 512 x 1024 image the returned image is 256 x 512 as the
    claim says, but the keypoint (256, 512) comes back as
    (256 * 256, 512 * 512) = (65536, 262144): each coordinate is multiplied by
    the output dimension, not by the ratio of the dimensions, which would
    give (128, 256). *)
Theorem Scale_256_multiplies_by_output_size :
  forall resample (m : string) (px : Z -> Z -> nat -> Q),
    let r := Scale.call resample (Scale.mk (Scale.SizeInt 256) PIL.BILINEAR)
               (mkImage m (512, 1024) px) [(256, 512)%Q] in
    returned_size r = Some (256, 512)
    /\ returned_target r = Some [(65536, 262144)%Q]
    /\ ~ (65536 == 256 * (256 / 512))%Q
    /\ ~ (262144 == 512 * (512 / 1024))%Q.
Proof.
  intros resample m px r.
  repeat split; try reflexivity; intros H; vm_compute in H; discriminate.
Qed.


(** ** The crops *)

(** The part of the post-crop policy both crops implement: once the
    minimum corner is subtracted, no coordinate is left negative. *)
Lemma crop_target_nonneg (tgt : target) (bx by' : Q) (p : keypoint) :
  In p (np.where_gt1 (np.where_gt0 (np.zero_negative tgt) bx) by') ->
  (0 <= fst p)%Q /\ (0 <= snd p)%Q.
Proof.
  unfold np.where_gt1, np.where_gt0, np.zero_negative.
  rewrite !map_map. intros H. apply in_map_iff in H.
  destruct H as [[x y] [<- _]]. cbn [fst snd].
  split.
  - destruct (Qlt_bool x 0) eqn:E.
    + destruct (Qlt_bool bx 0); apply Qle_refl.
    + apply Qlt_bool_false in E.
      destruct (Qlt_bool bx x); [apply Qle_refl | exact E].
  - destruct (Qlt_bool y 0) eqn:E.
    + destruct (Qlt_bool by' 0); apply Qle_refl.
    + apply Qlt_bool_false in E.
      destruct (Qlt_bool by' y); [apply Qle_refl | exact E].
Qed.

(** What the four post-crop statements do to one keypoint: subtract the
    corner, zero what became negative, zero what is above the bound. *)
Lemma crop_target_pointwise (tgt : target) (a b bx by' : Q) :
  np.where_gt1
    (np.where_gt0 (np.zero_negative (np.isub1 (np.isub0 tgt a) b)) bx) by'
  = map (fun p =>
           (let x := if Qlt_bool (fst p - a) 0 then 0%Q else (fst p - a)%Q in
            if Qlt_bool bx x then 0%Q else x,
            let y := if Qlt_bool (snd p - b) 0 then 0%Q else (snd p - b)%Q in
            if Qlt_bool by' y then 0%Q else y)) tgt.
Proof.
  unfold np.where_gt1, np.where_gt0, np.zero_negative, np.isub1, np.isub0.
  rewrite !map_map. reflexivity.
Qed.

(** The crop branch of [RandomCrop], with the two draws named. *)
Lemma RandomCrop_crop_branch (th tw p : Z) (img : Image) (tgt : target) (g : rng) :
  let padded := if p >? 0 then PIL.expand img p else img in
  let w := fst (size padded) in
  let h := snd (size padded) in
  (w =? th) && (h =? th) = false ->
  tw <= w -> th <= h ->
  let x1 := random.word g mod (w - tw + 1) in
  let y1 := random.word (random.advance g) mod (h - th + 1) in
  RandomCrop.call (RandomCrop.mk [th; tw] p) img tgt g
  = (Ok (PIL.crop padded (x1, y1, x1 + tw, y1 + th),
         np.where_gt1
           (np.where_gt0
              (np.zero_negative
                 (np.isub1 (np.isub0 tgt (inject_Z x1)) (inject_Z y1)))
              (inject_Z (x1 + tw)))
           (inject_Z (y1 + th))),
     random.advance (random.advance g)).
Proof.
  intros padded w h Hn Hw Hh x1 y1.
  unfold RandomCrop.call. cbn [RandomCrop.size RandomCrop.padding].
  fold padded. subst w h x1 y1.
  destruct (size padded) as [w h]. cbn [fst snd] in *.
  rewrite Hn. unfold rbind, random.randint, rret.
  replace (w - tw <? 0) with false by (symmetry; apply Z.ltb_ge; lia).
  replace (h - th <? 0) with false by (symmetry; apply Z.ltb_ge; lia).
  rewrite !Z.sub_0_r. reflexivity.
Qed.

(** The two draws of the crop branch land in the ranges the window needs. *)
Lemma randint_range (a b : Z) (g : rng) :
  a <= b ->
  exists k, random.randint a b g = (Ok k, random.advance g) /\ a <= k <= b.
Proof.
  intros Hab. unfold random.randint.
  replace (b <? a) with false by (symmetry; apply Z.ltb_ge; exact Hab).
  eexists. split; [reflexivity|].
  pose proof (Z.mod_pos_bound (random.word g) (b - a + 1)). lia.
Qed.

(** C2.  [RandomCrop] does clamp negative coordinates to 0, but it compares
    the re-based coordinate with [x1 + tw] (and [y1 + th]), not with the
    width [tw] (height [th]) of the cropped image.  With size (10, 10) on a
    20 x 20 image and the window drawn at (5, 0), the keypoint (17, 3) is
    returned as (12, 3): 12 exceeds the width 10 of the returned image and is
    not reset to 0. *)
Theorem RandomCrop_keeps_coordinate_beyond_width :
  forall (m : string) (px : Z -> Z -> nat -> Q),
    let r := fst (RandomCrop.call (RandomCrop.init (PySeq [10; 10]) 0)
                    (mkImage m (20, 20) px) [(17, 3)%Q] (rng_of [5; 0])) in
    returned_size r = Some (10, 10)
    /\ returned_target r = Some [(12, 3)%Q]
    /\ (inject_Z 10 < 12)%Q.
Proof.
  intros m px r. repeat split.
Qed.

(** C3.  The frame invariant fails for keypoints that start inside the
    frame.  [RandomCrop] with size (10, 10) on a 20 x 20 image, window drawn
    at (5, 5): the corner keypoint (20, 20) is returned as (15, 15) with a
    10 x 10 image.  [Scale(50)] on a 100 x 200 image: the keypoint (100, 200)
    is returned as (5000, 20000) with a 50 x 100 image. *)
Theorem crop_scale_output_leaves_frame :
  forall resample (m : string) (px : Z -> Z -> nat -> Q),
    let r1 := fst (RandomCrop.call (RandomCrop.init (PySeq [10; 10]) 0)
                     (mkImage m (20, 20) px) [(20, 20)%Q] (rng_of [5; 5])) in
    let r2 := Scale.call resample (Scale.mk (Scale.SizeInt 50) PIL.BILINEAR)
                (mkImage m (100, 200) px) [(100, 200)%Q] in
    in_frame (20, 20) (20, 20)%Q
    /\ returned_size r1 = Some (10, 10)
    /\ returned_target r1 = Some [(15, 15)%Q]
    /\ ~ in_frame (10, 10) (15, 15)%Q
    /\ in_frame (100, 200) (100, 200)%Q
    /\ returned_size r2 = Some (50, 100)
    /\ returned_target r2 = Some [(5000, 20000)%Q]
    /\ ~ in_frame (50, 100) (5000, 20000)%Q.
Proof.
  intros resample m px r1 r2. unfold in_frame. cbn [fst snd].
  repeat split; try reflexivity; try (intros H; discriminate H).
  - intros [[_ H] _]. vm_compute in H. apply H. reflexivity.
  - intros [[_ H] _]. vm_compute in H. apply H. reflexivity.
Qed.

(** The short circuit of [RandomCrop] as the code has it: the width and the
    height of the (padded) image are both compared with [th].  No word is
    drawn on this path. *)
Lemma RandomCrop_short_circuit (th tw p : Z) (img : Image) (tgt : target) (g : rng) :
  let padded := if p >? 0 then PIL.expand img p else img in
  size padded = (th, th) ->
  RandomCrop.call (RandomCrop.mk [th; tw] p) img tgt g = (Ok (padded, tgt), g).
Proof.
  intros padded E. unfold RandomCrop.call.
  cbn [RandomCrop.size RandomCrop.padding]. fold padded. rewrite E.
  rewrite !Z.eqb_refl. reflexivity.
Qed.

(** The scenario of a square target: size (224, 224), no padding, on a
    224 x 224 image, nothing changes. *)
Lemma RandomCrop_224_noop (m : string) (px : Z -> Z -> nat -> Q) (tgt : target) (g : rng) :
  RandomCrop.call (RandomCrop.init (PySeq [224; 224]) 0) (mkImage m (224, 224) px) tgt g
  = (Ok (mkImage m (224, 224) px, tgt), g).
Proof.
  apply (RandomCrop_short_circuit 224 224 0). reflexivity.
Qed.

(** C4.  For a target that is not square the short circuit is missed: the
    width is compared with [th] instead of [tw].  With size (th, tw) = (2, 4)
    on a 4 x 2 image, which has exactly the target size, the crop branch
    runs: two words are drawn and the keypoint (-1, 1) comes back as
    (0, 1). *)
Theorem RandomCrop_target_size_not_noop :
  forall (m : string) (px : Z -> Z -> nat -> Q) (g : rng),
    let img := mkImage m (4, 2) px in
    let r := RandomCrop.call (RandomCrop.init (PySeq [2; 4]) 0) img [(-1, 1)%Q] g in
    size img = (4, 2)
    /\ returned_size (fst r) = Some (4, 2)
    /\ returned_target (fst r) = Some [(0, 1)%Q]
    /\ returned_target (fst r) <> Some [(-1, 1)%Q]
    /\ snd r = random.advance (random.advance g).
Proof.
  intros m px g img r. subst r img.
  unfold RandomCrop.init.
  rewrite (RandomCrop_crop_branch 2 4 0) by (cbn; first [reflexivity | lia]).
  cbn [fst snd size Z.gtb Z.compare].
  change (4 - 4 + 1) with 1. change (2 - 2 + 1) with 1.
  rewrite !Z.mod_1_r.
  repeat split; try reflexivity. intros H; discriminate H.
Qed.

(** Where the padded image sits in the crop: the sample of the input at
    (x, y) is the sample of the output at (x + p - x1, y + p - y1), when
    that position lies in the output. *)
Lemma RandomCrop_padded_pixel (p x1 y1 tw th : Z) (img : Image) (x y : Z) (b : nat) :
  0 <= p ->
  PIL.in_image img x y = true ->
  0 <= x + p - x1 < tw ->
  0 <= y + p - y1 < th ->
  getpixel (PIL.crop (PIL.expand img p) (x1, y1, x1 + tw, y1 + th))
    (x + p - x1) (y + p - y1) b
  = getpixel img x y b.
Proof.
  intros Hp Hin Hx Hy. cbn [PIL.crop getpixel].
  replace (x + p - x1 + x1) with (x + p) by lia.
  replace (y + p - y1 + y1) with (y + p) by lia.
  assert (Hexp : PIL.in_image (PIL.expand img p) (x + p) (y + p) = true).
  { unfold PIL.in_image in *. cbn [PIL.expand size fst snd].
    apply andb_true_iff in Hin. destruct Hin as [Hin Hy2].
    apply andb_true_iff in Hin. destruct Hin as [Hin Hy1].
    apply andb_true_iff in Hin. destruct Hin as [Hx1 Hx2].
    apply Z.leb_le in Hx1, Hy1. apply Z.ltb_lt in Hx2, Hy2.
    repeat (apply andb_true_iff; split);
      first [apply Z.leb_le; lia | apply Z.ltb_lt; lia]. }
  rewrite Hexp.
  replace (0 <=? x + p - x1) with true by (symmetry; apply Z.leb_le; lia).
  replace (x + p - x1 <? Z.max 0 (x1 + tw - x1)) with true
    by (symmetry; apply Z.ltb_lt; lia).
  replace (0 <=? y + p - y1) with true by (symmetry; apply Z.leb_le; lia).
  replace (y + p - y1 <? Z.max 0 (y1 + th - y1)) with true
    by (symmetry; apply Z.ltb_lt; lia).
  cbn [andb PIL.expand getpixel].
  replace (x + p - p) with x by lia.
  replace (y + p - p) with y by lia.
  rewrite Hin. reflexivity.
Qed.

(** C5.  The padding shift is not applied to the keypoints.  With padding 2
    and size (4, 4) on a 4 x 4 image, window drawn at (2, 2), the returned
    image is the input again (its sample at (1, 1) is the input's sample at
    (1, 1)), so the keypoint (1, 1) should stay (1 + 2 - 2, 1 + 2 - 2) =
    (1, 1); the code subtracts only (x1, y1), gets (-1, -1) and returns
    (0, 0). *)
Theorem RandomCrop_padding_not_in_keypoints :
  forall (m : string) (px : Z -> Z -> nat -> Q),
    let img := mkImage m (4, 4) px in
    match fst (RandomCrop.call (RandomCrop.init (PySeq [4; 4]) 2)
                 img [(1, 1)%Q] (rng_of [2; 2])) with
    | Ok (out, tgt) =>
        size out = (4, 4)
        /\ (forall b, getpixel out 1 1 b = getpixel img 1 1 b)
        /\ tgt = [(0, 0)%Q]
        /\ tgt <> [(1 + 2 - 2, 1 + 2 - 2)%Q]
    | Raise _ => False
    end.
Proof.
  intros m px img. vm_compute.
  repeat split. intros H; discriminate H.
Qed.

(** ** CropToTarget *)

Lemma fold_max_bounds (l : target) (k p : keypoint) :
  let r := fold_left (fun m q => (Qmax (fst m) (fst q), Qmax (snd m) (snd q))) l k in
  (fst k <= fst r)%Q /\ (snd k <= snd r)%Q
  /\ (In p l -> (fst p <= fst r)%Q /\ (snd p <= snd r)%Q).
Proof.
  revert k. induction l as [|q l IH]; intros k; cbn [fold_left].
  - split; [apply Qle_refl | split; [apply Qle_refl | intros []]].
  - specialize (IH (Qmax (fst k) (fst q), Qmax (snd k) (snd q))).
    cbn [fst snd] in IH. destruct IH as (H1 & H2 & H3).
    split; [|split].
    + eapply Qle_trans; [apply Q.le_max_l | exact H1].
    + eapply Qle_trans; [apply Q.le_max_l | exact H2].
    + intros [-> | H]; [|apply H3; exact H].
      split; (eapply Qle_trans; [apply Q.le_max_r | eassumption]).
Qed.

Lemma fold_min_bounds (l : target) (k p : keypoint) :
  let r := fold_left (fun m q => (Qmin (fst m) (fst q), Qmin (snd m) (snd q))) l k in
  (fst r <= fst k)%Q /\ (snd r <= snd k)%Q
  /\ (In p l -> (fst r <= fst p)%Q /\ (snd r <= snd p)%Q).
Proof.
  revert k. induction l as [|q l IH]; intros k; cbn [fold_left].
  - split; [apply Qle_refl | split; [apply Qle_refl | intros []]].
  - specialize (IH (Qmin (fst k) (fst q), Qmin (snd k) (snd q))).
    cbn [fst snd] in IH. destruct IH as (H1 & H2 & H3).
    split; [|split].
    + eapply Qle_trans; [exact H1 | apply Q.le_min_l].
    + eapply Qle_trans; [exact H2 | apply Q.le_min_l].
    + intros [-> | H]; [|apply H3; exact H].
      split; (eapply Qle_trans; [eassumption | apply Q.le_min_r]).
Qed.

(** [np.min] and [np.max] give a box that holds every keypoint. *)
Lemma np_min_max_box (tgt : target) (mn mx p : keypoint) :
  np.min tgt = Ok mn -> np.max tgt = Ok mx -> In p tgt ->
  (fst mn <= fst p <= fst mx)%Q /\ (snd mn <= snd p <= snd mx)%Q.
Proof.
  destruct tgt as [|k l]; [discriminate|].
  cbn [np.min np.max]. intros Hmn Hmx Hin.
  injection Hmn as <-. injection Hmx as <-.
  pose proof (fold_max_bounds l k p) as (A1 & A2 & A3).
  pose proof (fold_min_bounds l k p) as (B1 & B2 & B3).
  destruct Hin as [-> | Hin].
  - repeat split; assumption.
  - destruct (A3 Hin), (B3 Hin). repeat split; assumption.
Qed.

(** C6.  The box of [CropToTarget] is the bounding box of the keypoints
    grown by the padding on all four sides when the grown box lies within the
    image, and the bounding box itself, with no padding on any side,
    otherwise. *)
Theorem CropToTarget_padding_all_or_nothing
  (self : CropToTarget.t) (img : Image) (tgt : target) (mn mx : keypoint) :
  np.min tgt = Ok mn ->
  np.max tgt = Ok mx ->
  let p := inject_Z (CropToTarget.padding self) in
  (padded_box_fits p (size img) mn mx ->
   CropToTarget.bounding_box self img tgt
   = Ok ((fst mn - p, snd mn - p)%Q, (fst mx + p, snd mx + p)%Q))
  /\ (~ padded_box_fits p (size img) mn mx ->
      CropToTarget.bounding_box self img tgt = Ok (mn, mx)).
Proof.
  intros Hmn Hmx p. unfold CropToTarget.bounding_box, padded_box_fits.
  rewrite Hmn, Hmx. cbn [bind]. fold p.
  destruct (size img) as [w h]. cbn [fst snd].
  destruct (Qlt_bool (fst mn - p) 0) eqn:E1;
    [apply Qlt_bool_true in E1 | apply Qlt_bool_false in E1];
  (destruct (Qlt_bool (snd mn - p) 0) eqn:E2;
    [apply Qlt_bool_true in E2 | apply Qlt_bool_false in E2]);
  (destruct (Qlt_bool (inject_Z w) (fst mx + p)) eqn:E3;
    [apply Qlt_bool_true in E3 | apply Qlt_bool_false in E3]);
  (destruct (Qlt_bool (inject_Z h) (snd mx + p)) eqn:E4;
    [apply Qlt_bool_true in E4 | apply Qlt_bool_false in E4]);
  cbn [orb negb]; split; intros H; try reflexivity;
  try (destruct H as (H1 & H2 & H3 & H4);
       first [ apply Qle_not_lt in H1; contradiction
             | apply Qle_not_lt in H2; contradiction
             | apply Qle_not_lt in H3; contradiction
             | apply Qle_not_lt in H4; contradiction ]).
  exfalso. apply H. repeat split; assumption.
Qed.

(** The scenario of C6: padding 10 around the box [(5, 5), (50, 50)] in a
    200 x 200 image would reach (-5, -5), so the box stays unpadded. *)
Lemma CropToTarget_padding_scenario :
  np.min [(5, 5); (50, 50)]%Q = Ok (5, 5)%Q
  /\ np.max [(5, 5); (50, 50)]%Q = Ok (50, 50)%Q
  /\ CropToTarget.bounding_box (CropToTarget.init 10) (PIL.new "RGB" (200, 200) 0)
       [(5, 5); (50, 50)]%Q
     = Ok ((5, 5)%Q, (50, 50)%Q).
Proof.
  split; [reflexivity | split; [reflexivity |]].
  apply (proj2 (CropToTarget_padding_all_or_nothing (CropToTarget.init 10)
                  (PIL.new "RGB" (200, 200) 0) [(5, 5); (50, 50)]%Q
                  (5, 5)%Q (50, 50)%Q eq_refl eq_refl)).
  intros [H _]. vm_compute in H. apply H. reflexivity.
Defined.

(** The box is the one the image is cropped to and the keypoints are
    re-based on, unless it ends at the lower right corner of the image. *)
Lemma CropToTarget_call_box box_round (self : CropToTarget.t) (img : Image)
      (tgt : target) (mn mx : keypoint) :
  CropToTarget.bounding_box self img tgt = Ok (mn, mx) ->
  Qeq_bool (inject_Z (fst (size img))) (fst mx)
  && Qeq_bool (inject_Z (snd (size img))) (snd mx) = false ->
  CropToTarget.call box_round self img tgt
  = Ok (PIL.crop img (box_round (fst mn), box_round (snd mn),
                      box_round (fst mx), box_round (snd mx)),
        np.where_gt1
          (np.where_gt0
             (np.zero_negative (np.isub1 (np.isub0 tgt (fst mn)) (snd mn)))
             (fst mx))
          (snd mx)).
Proof.
  intros Hbox Hne. unfold CropToTarget.call. rewrite Hbox. cbn [bind].
  destruct (size img) as [w h]. cbn [fst snd] in Hne. rewrite Hne. reflexivity.
Qed.

(** ** RandomHorizontalFlip *)

Lemma random_below_half (k : Z) :
  Qlt_bool (k # 2 ^ 53) (1 # 2) = (k <? 2 ^ 52).
Proof.
  unfold Qlt_bool, Qle_bool. cbn [Qnum Qden].
  change (Z.pos (2 ^ 53)) with 9007199254740992.
  change (2 ^ 52) with 4503599627370496.
  destruct (Z.leb_spec (1 * 9007199254740992) (k * 2));
    destruct (Z.ltb_spec k 4503599627370496); cbn [negb]; try reflexivity; lia.
Qed.

(** C9.  One word is drawn per call.  The word is one of 2^53 equally
    weighted values and selects the flip exactly when it is one of the lower
    2^52, half of them.  On the flip the image is mirrored left-right and
    every keypoint (x, y) becomes (w - x, y), in the same order; otherwise
    image and keypoints are returned as they came. *)
Theorem RandomHorizontalFlip_single_draw (img : Image) (tgt : target) (g : rng) :
  let w := fst (size img) in
  let flip := random.word g <? 2 ^ 52 in
  RandomHorizontalFlip.call img tgt g
  = (Ok (if flip
         then (PIL.flip_left_right img,
               map (fun p => (inject_Z w - fst p, snd p)%Q) tgt)
         else (img, tgt)),
     random.advance g)
  /\ 0 <= random.word g < 2 ^ 53
  /\ 2 * 2 ^ 52 = 2 ^ 53
  /\ size (PIL.flip_left_right img) = size img
  /\ (forall x y b,
        getpixel (PIL.flip_left_right img) x y b = getpixel img (w - 1 - x) y b)
  /\ List.length (map (fun p => (inject_Z w - fst p, snd p)%Q) tgt) = List.length tgt.
Proof.
  intros w flip. repeat split.
  - unfold RandomHorizontalFlip.call, rbind, random.random, rret.
    rewrite random_below_half. fold flip. subst w.
    destruct (size img) as [w h]. destruct flip; reflexivity.
  - apply Z.mod_pos_bound. reflexivity.
  - apply Z.mod_pos_bound. reflexivity.
  - apply length_map.
Qed.

(** ** RandomCrop.__init__ *)

Lemma py_int_inject_Z (n : Z) : py_int (inject_Z n) = n.
Proof.
  unfold py_int, inject_Z. cbn [Qnum Qden]. apply Z.quot_1_r.
Qed.

(** C10, as the code has it.  A scalar size [n], int or float, is stored
    as the square pair [(int(n), int(n))] beside the padding, so the object
    built from the number is the object built from that pair, and so is every
    call on it.  For a whole [n] the pair is [(n, n)]. *)
Theorem RandomCrop_init_scalar (n : Z) (q : Q) (p : Z) :
  RandomCrop.size (RandomCrop.init (PyInt n) p) = [n; n]
  /\ RandomCrop.size (RandomCrop.init (PyFloat q) p) = [py_int q; py_int q]
  /\ RandomCrop.size (RandomCrop.init (PyFloat (inject_Z n)) p) = [n; n]
  /\ RandomCrop.padding (RandomCrop.init (PyInt n) p) = p
  /\ RandomCrop.padding (RandomCrop.init (PyFloat q) p) = p
  /\ RandomCrop.init (PySeq [n; n]) p = RandomCrop.mk [n; n] p
  /\ RandomCrop.init (PyInt n) p = RandomCrop.init (PySeq [n; n]) p
  /\ RandomCrop.init (PyFloat q) p = RandomCrop.init (PySeq [py_int q; py_int q]) p
  /\ RandomCrop.init (PyFloat (inject_Z n)) p = RandomCrop.init (PySeq [n; n]) p
  /\ (forall img tgt g,
        RandomCrop.call (RandomCrop.init (PyInt n) p) img tgt g
        = RandomCrop.call (RandomCrop.init (PySeq [n; n]) p) img tgt g)
  /\ (forall img tgt g,
        RandomCrop.call (RandomCrop.init (PyFloat q) p) img tgt g
        = RandomCrop.call (RandomCrop.init (PySeq [py_int q; py_int q]) p) img tgt g).
Proof.
  unfold RandomCrop.init. cbn [RandomCrop.size RandomCrop.padding].
  rewrite py_int_inject_Z. repeat split.
Qed.

(** C10, the claim as written fails for a number that is not whole: built
    from 2.5 the transform holds the pair (2, 2) and cuts 2 x 2 windows, which
    is not what the pair (2.5, 2.5) stands for. *)
Lemma RandomCrop_init_fraction_truncated :
  RandomCrop.size (RandomCrop.init (PyFloat (5 # 2)) 0) = [2; 2]
  /\ returned_size
       (fst (RandomCrop.call (RandomCrop.init (PyFloat (5 # 2)) 0)
               (PIL.new "L" (5, 5) 0) [(1, 1)%Q] (rng_of [1; 1])))
     = Some (2, 2)
  /\ ~ (inject_Z 2 == 5 # 2)%Q.
Proof.
  split; [reflexivity|]. split; [reflexivity|].
  intros H. vm_compute in H. discriminate H.
Qed.

(** ** Normalize *)

Lemma Normalize_loop_length rnd (ts : list plane) (ms ss : list Q) :
  List.length (Normalize.loop rnd ts ms ss) = List.length ts.
Proof.
  revert ms ss. induction ts as [|p ts IH]; intros ms ss; [reflexivity|].
  destruct ms as [|m ms]; [reflexivity|].
  destruct ss as [|s ss]; [reflexivity|].
  cbn [Normalize.loop List.length]. rewrite IH. reflexivity.
Qed.

Lemma Normalize_loop_nth rnd (ts : list plane) (ms ss : list Q) (i : nat) (d : plane) :
  nth i (Normalize.loop rnd ts ms ss) d
  = if (i <? Nat.min (List.length ts) (Nat.min (List.length ms) (List.length ss)))%nat
    then torch.sub_div_ rnd (nth i ts d) (nth i ms 0%Q) (nth i ss 0%Q)
    else nth i ts d.
Proof.
  revert ms ss i. induction ts as [|p ts IH]; intros ms ss i.
  - cbn [Normalize.loop List.length Nat.min]. destruct i; reflexivity.
  - destruct ms as [|m ms].
    { reflexivity. }
    destruct ss as [|s ss].
    { reflexivity. }
    cbn [Normalize.loop List.length]. rewrite <- !Nat.succ_min_distr.
    destruct i as [|i]; [reflexivity|].
    cbn [nth]. rewrite IH. reflexivity.
Qed.

(** On a byte or int tensor the first pass of the loop raises
    [RuntimeError]; this has nothing to do with the counts. *)
Lemma Normalize_integer_tensor rnd (self : Normalize.t) (tensor : Tensor) (tgt : target) :
  is_float (t_dtype tensor) = false ->
  Normalize.enters (planes tensor) (Normalize.mean self) (Normalize.std self) = true ->
  Normalize.call rnd self tensor tgt = Raise RuntimeError.
Proof.
  intros Hd He. unfold Normalize.call. rewrite He, Hd. reflexivity.
Qed.

(** C8, as the code has it.  On a float tensor [Normalize] raises nothing:
    building it always gives the object, and a call always returns.  The
    planes with an index below the smallest of the three counts (channels,
    mean entries, std entries) are normalized, every other plane is returned
    as it was, and the keypoints are untouched. *)
Theorem Normalize_normalizes_common_prefix rnd (mean std : list Q)
        (tensor : Tensor) (tgt : target) :
  is_float (t_dtype tensor) = true ->
  exists t',
    Normalize.call rnd (Normalize.init mean std) tensor tgt = Ok (t', tgt)
    /\ List.length (planes t') = List.length (planes tensor)
    /\ forall i d,
        nth i (planes t') d
        = if (i <? Nat.min (List.length (planes tensor))
                     (Nat.min (List.length mean) (List.length std)))%nat
          then torch.sub_div_ rnd (nth i (planes tensor) d)
                 (nth i mean 0%Q) (nth i std 0%Q)
          else nth i (planes tensor) d.
Proof.
  intros Hd. unfold Normalize.call. rewrite Hd. cbn [negb].
  rewrite andb_false_r.
  eexists. split; [reflexivity|]. cbn [planes Normalize.mean Normalize.std].
  split; [apply Normalize_loop_length | apply Normalize_loop_nth].
Qed.

(** C8 on a float tensor of three channels with one mean and one std
    entry. *)
Lemma Normalize_normalizes_common_prefix_example :
  exists t',
    Normalize.call (fun q => q) (Normalize.init [0%Q] [(1 # 2)%Q])
      (mkTensor float32 [fun _ _ => 1%Q; fun _ _ => 1%Q; fun _ _ => 1%Q] 1 1) [(1, 1)%Q]
    = Ok (t', [(1, 1)%Q])
    /\ List.length (planes t') = 3%nat
    /\ forall i d,
        nth i (planes t') d
        = if (i <? 1)%nat
          then torch.sub_div_ (fun q => q)
                 (nth i [fun _ _ => 1%Q; fun _ _ => 1%Q; fun _ _ => 1%Q] d)
                 (nth i [0%Q] 0%Q) (nth i [(1 # 2)%Q] 0%Q)
          else nth i [fun _ _ => 1%Q; fun _ _ => 1%Q; fun _ _ => 1%Q] d.
Proof.
  apply (Normalize_normalizes_common_prefix (fun q => q) [0%Q] [(1 # 2)%Q]
           (mkTensor float32 [fun _ _ => 1%Q; fun _ _ => 1%Q; fun _ _ => 1%Q] 1 1)
           [(1, 1)%Q]).
  reflexivity.
Defined.

(** C8, the claim as written fails: with one mean and one std entry on a
    tensor of three channels no error is raised, at construction or at the
    call; channel 0 is normalized ((1 - 0) / (1/2) = 2) and channels 1 and 2
    are returned as they were. *)
Lemma Normalize_count_mismatch_no_error :
  match Normalize.call (fun q => q) (Normalize.init [0%Q] [(1 # 2)%Q])
          (mkTensor float32 [fun _ _ => 1%Q; fun _ _ => 1%Q; fun _ _ => 1%Q] 1 1) [] with
  | Ok (t', _) =>
      map (fun p : plane => p 0 0) (planes t') = [2%Q; 1%Q; 1%Q]
  | Raise _ => False
  end.
Proof.
  vm_compute. reflexivity.
Qed.

(** ** ToTensor and ToPILImage *)

Lemma py_int_floor (q : Q) : (0 <= q)%Q -> py_int q = Qfloor q.
Proof.
  destruct q as [n d]. unfold py_int, Qfloor, Qle. cbn [Qnum Qden].
  intros H. apply Z.quot_div_nonneg; lia.
Qed.

Lemma py_int_between (q : Q) (v : Z) :
  (0 <= q)%Q -> (inject_Z v - 1 < q)%Q -> (q < inject_Z v + 1)%Q ->
  0 <= py_int q /\ v - 1 <= py_int q <= v.
Proof.
  intros H0 Hlo Hhi. rewrite (py_int_floor q H0).
  pose proof (Qfloor_le q) as Hle.
  pose proof (Qlt_floor q) as Hlt.
  assert (A : 0 <= Qfloor q).
  { change 0 with (Qfloor (inject_Z 0)) at 1. rewrite Qfloor_Z at 1.
    rewrite <- (Qfloor_Z 0). apply Qfloor_resp_le. exact H0. }
  assert (B : (inject_Z (Qfloor q) < inject_Z (v + 1))%Q).
  { rewrite inject_Z_plus. eapply Qle_lt_trans; [exact Hle | exact Hhi]. }
  assert (C : (inject_Z (v - 1) < inject_Z (Qfloor q + 1))%Q).
  { eapply Qlt_trans; [|exact Hlt]. unfold Zminus. rewrite inject_Z_plus. exact Hlo. }
  rewrite <- Zlt_Qlt in B, C. lia.
Qed.

Section RoundTrip.

Variable rnd : Q -> Q.
Hypothesis rnd_error : float32_rounding rnd.

Lemma rnd_nonneg (q : Q) :
  (0 <= q)%Q ->
  (q * (1 - (1 # 16777216)) <= rnd q)%Q /\ (rnd q <= q * (1 + (1 # 16777216)))%Q.
Proof.
  intros Hq. pose proof (rnd_error q) as H.
  change (2 ^ 24)%positive with 16777216%positive in H.
  rewrite (Qabs_pos q Hq) in H.
  apply Qabs_Qle_condition in H. destruct H as [H1 H2].
  split; lra.
Qed.

(** A byte divided by 255, multiplied by 255 and truncated comes back as
    itself or one below. *)
Lemma byte_roundtrip (v : Z) :
  0 <= v <= 255 ->
  v - 1 <= py_int (rnd (rnd (inject_Z v / 255) * 255)%Q) mod 256 <= v.
Proof.
  intros Hv.
  assert (Hx0 : (0 <= inject_Z v)%Q) by (unfold Qle, inject_Z; cbn [Qnum Qden]; lia).
  assert (Hx1 : (inject_Z v <= 255)%Q) by (unfold Qle, inject_Z; cbn [Qnum Qden]; lia).
  set (x := inject_Z v) in *.
  assert (Hq : (0 <= x / 255)%Q) by (apply Qle_shift_div_l; lra).
  destruct (rnd_nonneg _ Hq) as [A1 A2].
  set (a := rnd (x / 255)) in *.
  assert (Hx : (x / 255 * 255 == x)%Q) by field.
  assert (Ha : (0 <= a * 255)%Q) by lra.
  destruct (rnd_nonneg _ Ha) as [B1 B2].
  set (b := rnd (a * 255)) in *.
  assert (Hb : 0 <= py_int b /\ v - 1 <= py_int b <= v).
  { apply py_int_between; fold x; lra. }
  rewrite Z.mod_small by lia. lia.
Qed.

End RoundTrip.

(** C7, for the modes [ToPILImage] gives back.  For an 8-bit image of mode
    L or RGB, [ToTensor] followed by [ToPILImage] returns an image of the
    same mode and size whose bytes are within one level of the input's
    (division by 255, multiplication by 255, truncation), and [ToPILImage]
    returns exactly the keypoints it received, which [ToTensor] has divided
    by the width and the height. *)
Theorem ToTensor_ToPILImage_roundtrip (rnd : Q -> Q) (img : Image) (tgt : target) :
  float32_rounding rnd ->
  mode img = "L"%string \/ mode img = "RGB"%string ->
  0 < fst (size img) ->
  0 < snd (size img) ->
  eight_bit img ->
  roundtrip_preserves rnd img tgt.
Proof.
  intros Hrnd Hmode Hw Hh H8. unfold roundtrip_preserves.
  destruct img as [m [w h] px]. cbn [mode size fst snd] in *.
  destruct Hmode as [-> | ->].
  - eexists _, _, _. split; [reflexivity|].
    split; [apply idiv_both|].
    split; [reflexivity|].
    split; [reflexivity|].
    split; [reflexivity|].
    intros x y b Hx Hy Hb.
    destruct (H8 x y b Hx Hy Hb) as [v [Hv Ev]].
    cbn [mode getpixel] in Ev.
    exists v, (py_int (rnd (rnd (inject_Z v / 255) * 255)%Q) mod 256).
    split; [exact Ev|]. split; [| apply byte_roundtrip; assumption].
    rewrite <- Ev. cbn [String.length] in Hb.
    destruct b as [|b]; [reflexivity | lia].
  - eexists _, _, _. split; [reflexivity|].
    split; [apply idiv_both|].
    split; [reflexivity|].
    split; [reflexivity|].
    split; [reflexivity|].
    intros x y b Hx Hy Hb.
    destruct (H8 x y b Hx Hy Hb) as [v [Hv Ev]].
    cbn [mode getpixel] in Ev.
    exists v, (py_int (rnd (rnd (inject_Z v / 255) * 255)%Q) mod 256).
    split; [exact Ev|]. split; [| apply byte_roundtrip; assumption].
    rewrite <- Ev. cbn [String.length] in Hb.
    destruct b as [|[|[|b]]]; [reflexivity | reflexivity | reflexivity | lia].
Qed.

Lemma exact_float32_rounding : float32_rounding (fun q => q).
Proof.
  intros q. setoid_replace (q - q)%Q with 0%Q by ring.
  apply Qmult_le_0_compat; [discriminate | apply Qabs_nonneg].
Qed.

Lemma new_eight_bit (m : string) (sz : Z * Z) (v : Z) :
  0 <= v <= 255 -> eight_bit (PIL.new m sz (inject_Z v)).
Proof.
  intros Hv x y b _ _ _. exists v. split; [exact Hv | reflexivity].
Qed.

(** C7 on a 2 x 2 white RGB image with one keypoint, under exact
    rounding. *)
Lemma ToTensor_ToPILImage_roundtrip_rgb_2x2 :
  float32_rounding (fun q => q)
  /\ eight_bit (PIL.new "RGB" (2, 2) (inject_Z 255))
  /\ roundtrip_preserves (fun q => q) (PIL.new "RGB" (2, 2) (inject_Z 255)) [(1, 1)%Q].
Proof.
  split; [exact exact_float32_rounding|].
  split; [apply new_eight_bit; lia|].
  apply (ToTensor_ToPILImage_roundtrip (fun q => q)
           (PIL.new "RGB" (2, 2) (inject_Z 255)) [(1, 1)%Q]).
  - exact exact_float32_rounding.
  - right. reflexivity.
  - reflexivity.
  - reflexivity.
  - apply new_eight_bit. lia.
Defined.

(** C7, the claim as written fails for an 8-bit image with four bands:
    an RGBA image goes through [ToTensor] as four planes and comes out of
    [ToPILImage] as an image of mode RGB. *)
Lemma ToTensor_ToPILImage_rgba_mode_lost :
  match ToTensor.call (fun q => q) (PILImage (PIL.new "RGBA" (2, 2) 255)) [(1, 1)%Q] with
  | Ok (t, tgt') =>
      List.length (planes t) = 4%nat
      /\ match ToPILImage.call (fun q => q) (TorchTensor t) tgt' with
         | Ok (out, _) =>
             mode out = "RGB"%string
             /\ mode out <> mode (PIL.new "RGBA" (2, 2) 255)
         | Raise _ => False
         end
  | Raise _ => False
  end.
Proof.
  cbn. split; [reflexivity|]. split; [reflexivity|]. intros H; discriminate H.
Qed.


(** ** Compose *)

(** X23.  A pipeline over the concatenation of two lists of transforms is
    the pipeline over the first, followed, when that returns, by the pipeline
    over the second on what it returned and with the generator it left; when
    the first raises, so does the whole. *)
Lemma Compose_call_app (ts1 ts2 : list Transform) (img : pic) (tgt : target) (g : rng) :
  Compose.call (ts1 ++ ts2) img tgt g
  = match Compose.call ts1 img tgt g with
    | (Ok r, g') => Compose.call ts2 (fst r) (snd r) g'
    | (Raise e, g') => (Raise e, g')
    end.
Proof.
  revert img tgt g. induction ts1 as [|t ts1 IH]; intros img tgt g.
  - reflexivity.
  - cbn [app Compose.call]. unfold rbind.
    destruct (t img tgt g) as [[r | e] g']; [apply IH | reflexivity].
Qed.

(** An exception of one transform ends the pipeline at once. *)
Lemma Compose_call_raise (t : Transform) (rest : list Transform)
      (img : pic) (tgt : target) (g g' : rng) (e : exn) :
  t img tgt g = (Raise e, g') ->
  Compose.call (t :: rest) img tgt g = (Raise e, g').
Proof.
  intros H. cbn [Compose.call]. unfold rbind. rewrite H. reflexivity.
Qed.

(** * Further properties of the transforms *)

(** ** Scale *)

Lemma py_int_truediv (a b : Z) :
  0 < b -> py_int (inject_Z a / inject_Z b) = Z.quot a b.
Proof.
  intros Hb. destruct b as [|b|b]; try lia.
  unfold py_int, Qdiv, Qmult, Qinv, inject_Z. cbn [Qnum Qden Z.mul Pos.mul].
  rewrite Z.mul_1_r. reflexivity.
Qed.

(** The single-int branch with [s >= 1] on an image with positive sides:
    the call returns, the edge that was not the longer one becomes [s], and
    the other edge is the exact ratio [s * other / shorter] rounded down. *)
Lemma Scale_int_result resample (s interp : Z) (img : Image) (tgt : target) :
  0 < s -> 0 < fst (size img) -> 0 < snd (size img) ->
  exists img' tgt',
    Scale.call resample (Scale.mk (Scale.SizeInt s) interp) img tgt = Ok (img', tgt')
    /\ List.length tgt' = List.length tgt
    /\ if fst (size img) <? snd (size img)
       then fst (size img') = s
            /\ fst (size img) * snd (size img') <= s * snd (size img)
               < fst (size img) * (snd (size img') + 1)
       else snd (size img') = s
            /\ snd (size img) * fst (size img') <= s * fst (size img)
               < snd (size img) * (fst (size img') + 1).
Proof.
  intros Hs Hw Hh. unfold Scale.call. cbn [Scale.size Scale.interpolation].
  destruct (size img) as [w h] eqn:E. cbn [fst snd] in *.
  destruct (((w <=? h) && (w =? s)) || ((h <=? w) && (h =? s))) eqn:Enoop.
  - exists img, tgt. split; [reflexivity|]. split; [reflexivity|].
    rewrite E. cbn [fst snd].
    apply orb_true_iff in Enoop.
    destruct (Z.ltb_spec w h).
    + destruct Enoop as [H1 | H1]; apply andb_true_iff in H1;
        destruct H1 as [H1 H2]; apply Z.leb_le in H1; apply Z.eqb_eq in H2; nia.
    + destruct Enoop as [H1 | H1]; apply andb_true_iff in H1;
        destruct H1 as [H1 H2]; apply Z.leb_le in H1; apply Z.eqb_eq in H2; nia.
  - destruct (Z.ltb_spec w h) as [Hlt | Hge].
    + unfold truediv.
      replace (w =? 0) with false by (symmetry; apply Z.eqb_neq; lia).
      cbn [bind]. rewrite py_int_truediv by lia.
      rewrite Z.quot_div_nonneg by nia.
      assert (Hoh : s <= s * h / w) by (apply Z.div_le_lower_bound; nia).
      rewrite resize_ok by lia. cbn [bind].
      eexists _, _. split; [reflexivity|].
      split; [unfold np.imul1, np.imul0; rewrite !length_map; reflexivity|].
      cbn [size fst snd].
      split; [reflexivity|].
      split; [apply Z.mul_div_le; lia | apply Z.mul_succ_div_gt; lia].
    + unfold truediv.
      replace (h =? 0) with false by (symmetry; apply Z.eqb_neq; lia).
      cbn [bind]. rewrite py_int_truediv by lia.
      rewrite Z.quot_div_nonneg by nia.
      assert (How : s <= s * w / h) by (apply Z.div_le_lower_bound; nia).
      rewrite resize_ok by lia. cbn [bind].
      eexists _, _. split; [reflexivity|].
      split; [unfold np.imul1, np.imul0; rewrite !length_map; reflexivity|].
      cbn [size fst snd].
      split; [reflexivity|].
      split; [apply Z.mul_div_le; lia | apply Z.mul_succ_div_gt; lia].
Qed.

(** With [s = 0] the single-int branch returns on no image with positive
    sides: [resize] refuses the empty target. *)
Lemma Scale_int_zero resample (interp : Z) (img : Image) (tgt : target) :
  0 < fst (size img) -> 0 < snd (size img) ->
  Scale.call resample (Scale.mk (Scale.SizeInt 0) interp) img tgt = Raise ValueError.
Proof.
  intros Hw Hh. unfold Scale.call. cbn [Scale.size Scale.interpolation].
  destruct (size img) as [w h]. cbn [fst snd] in *.
  replace (w =? 0) with false by (symmetry; apply Z.eqb_neq; lia).
  replace (h =? 0) with false by (symmetry; apply Z.eqb_neq; lia).
  rewrite !andb_false_r. cbn [orb].
  unfold truediv.
  replace (w =? 0) with false by (symmetry; apply Z.eqb_neq; lia).
  replace (h =? 0) with false by (symmetry; apply Z.eqb_neq; lia).
  cbn [bind Z.mul]. rewrite py_int_truediv by lia.
  destruct (w <? h); cbn [bind]; unfold Scale.resize; cbn [fst snd];
    rewrite ?Z.quot_0_l by lia; reflexivity.
Qed.





(** X3.  In the single-int mode a second [Scale] of the result changes
    nothing: the image already has its shorter edge at [s], so the call
    returns its arguments. *)
Theorem Scale_int_twice resample (s interp : Z) (img img' : Image) (tgt tgt' : target) :
  0 <= s -> 0 < fst (size img) -> 0 < snd (size img) ->
  Scale.call resample (Scale.mk (Scale.SizeInt s) interp) img tgt = Ok (img', tgt') ->
  Scale.call resample (Scale.mk (Scale.SizeInt s) interp) img' tgt' = Ok (img', tgt').
Proof.
  intros Hs Hw Hh Hcall.
  assert (Hpos : 0 < s).
  { destruct (Z.eq_dec s 0) as [-> | Hne]; [|lia].
    rewrite Scale_int_zero in Hcall by assumption. discriminate Hcall. }
  destruct (Scale_int_result resample s interp img tgt Hpos Hw Hh)
    as (i2 & t2 & Hcall2 & _ & Hsz).
  rewrite Hcall in Hcall2. injection Hcall2 as <- <-.
  assert (Hmin : Z.min (fst (size img')) (snd (size img')) = s)
    by (destruct (Z.ltb_spec (fst (size img)) (snd (size img))); nia).
  unfold Scale.call. cbn [Scale.size Scale.interpolation].
  destruct (size img') as [w' h']. cbn [fst snd] in Hmin.
  replace (((w' <=? h') && (w' =? s)) || ((h' <=? w') && (h' =? s))) with true;
    [reflexivity|].
  symmetry. apply orb_true_iff.
  destruct (Z.le_ge_cases w' h') as [H | H].
  - left. apply andb_true_iff. split; [apply Z.leb_le | apply Z.eqb_eq]; lia.
  - right. apply andb_true_iff. split; [apply Z.leb_le | apply Z.eqb_eq]; lia.
Qed.

Lemma Scale_int_twice_example :
  exists img' tgt',
    Scale.call (fun _ _ _ _ _ _ => 0%Q) (Scale.mk (Scale.SizeInt 256) PIL.BILINEAR)
      (PIL.new "RGB" (640, 480) 0) [(10, 20)%Q] = Ok (img', tgt')
    /\ size img' = (341, 256)
    /\ Scale.call (fun _ _ _ _ _ _ => 0%Q) (Scale.mk (Scale.SizeInt 256) PIL.BILINEAR)
         img' tgt' = Ok (img', tgt').
Proof.
  eexists _, _. split; [reflexivity|]. split; [reflexivity|].
  apply (Scale_int_twice (fun _ _ _ _ _ _ => 0%Q) 256 PIL.BILINEAR
           (PIL.new "RGB" (640, 480) 0) _ [(10, 20)%Q] _);
    [lia | cbn; lia | cbn; lia | reflexivity].
Defined.



(** ** CropToTarget *)

Lemma fold_min_lower (l : target) (k : keypoint) (c1 c2 : Q) :
  (c1 <= fst k)%Q -> (c2 <= snd k)%Q ->
  Forall (fun p => (c1 <= fst p)%Q /\ (c2 <= snd p)%Q) l ->
  let r := fold_left (fun m q => (Qmin (fst m) (fst q), Qmin (snd m) (snd q))) l k in
  (c1 <= fst r)%Q /\ (c2 <= snd r)%Q.
Proof.
  revert k. induction l as [|q l IH]; intros k H1 H2 Hall; cbn [fold_left].
  - split; assumption.
  - inversion Hall as [|? ? [Hq1 Hq2] Hall']; subst.
    apply IH; cbn [fst snd]; try assumption.
    + apply Q.min_glb; assumption.
    + apply Q.min_glb; assumption.
Qed.

(** What is known of the box when the padding is not negative: it holds
    every keypoint, and it starts at a non-negative corner when no keypoint
    is negative. *)
Lemma bounding_box_facts (self : CropToTarget.t) (img : Image) (tgt : target)
      (mn mx : keypoint) :
  0 <= CropToTarget.padding self ->
  CropToTarget.bounding_box self img tgt = Ok (mn, mx) ->
  (forall p, In p tgt ->
             (fst mn <= fst p <= fst mx)%Q /\ (snd mn <= snd p <= snd mx)%Q)
  /\ (Forall (fun p => (0 <= fst p)%Q /\ (0 <= snd p)%Q) tgt ->
      (0 <= fst mn)%Q /\ (0 <= snd mn)%Q).
Proof.
  intros Hp Hbox.
  assert (Hpq : (0 <= inject_Z (CropToTarget.padding self))%Q)
    by (rewrite (Zle_Qle 0) in Hp; exact Hp).
  destruct tgt as [|k l]; [discriminate Hbox|].
  unfold CropToTarget.bounding_box in Hbox.
  destruct (np.max (k :: l)) as [mx0|] eqn:Emx; [|discriminate Emx].
  destruct (np.min (k :: l)) as [mn0|] eqn:Emn; [|discriminate Emn].
  cbn [bind] in Hbox. destruct (size img) as [w h].
  set (pq := inject_Z (CropToTarget.padding self)) in *.
  assert (Hlow : Forall (fun p => (0 <= fst p)%Q /\ (0 <= snd p)%Q) (k :: l) ->
                 (0 <= fst mn0)%Q /\ (0 <= snd mn0)%Q).
  { intros Hall. cbn [np.min] in Emn. injection Emn as <-.
    inversion Hall as [|? ? [Hk1 Hk2] Hall']; subst.
    apply fold_min_lower; assumption. }
  destruct (Qlt_bool (fst mn0 - pq) 0) eqn:E1;
    [| destruct (Qlt_bool (snd mn0 - pq) 0) eqn:E2];
    cbn [orb negb] in Hbox.
  - injection Hbox as <- <-. split; [|exact Hlow].
    intros p Hin. apply (np_min_max_box (k :: l)); assumption.
  - injection Hbox as <- <-. split; [|exact Hlow].
    intros p Hin. apply (np_min_max_box (k :: l)); assumption.
  - destruct (Qlt_bool (inject_Z w) (fst mx0 + pq)
              || Qlt_bool (inject_Z h) (snd mx0 + pq)); cbn [negb] in Hbox;
      injection Hbox as <- <-.
    + split; [|exact Hlow].
      intros p Hin. apply (np_min_max_box (k :: l)); assumption.
    + apply Qlt_bool_false in E1, E2. cbn [fst snd]. split.
      * intros p Hin.
        destruct (np_min_max_box (k :: l) mn0 mx0 p Emn Emx Hin) as [[A1 A2] [B1 B2]].
        repeat split; lra.
      * intros _. split; assumption.
Qed.

(** X7.  With a padding that is not negative, the box [CropToTarget]
    crops to holds every keypoint, whether the padding was applied or not. *)
Theorem CropToTarget_box_holds_keypoints (self : CropToTarget.t) (img : Image)
        (tgt : target) (mn mx p : keypoint) :
  0 <= CropToTarget.padding self ->
  CropToTarget.bounding_box self img tgt = Ok (mn, mx) ->
  In p tgt ->
  (fst mn <= fst p <= fst mx)%Q /\ (snd mn <= snd p <= snd mx)%Q.
Proof.
  intros Hp Hbox Hin.
  apply (proj1 (bounding_box_facts self img tgt mn mx Hp Hbox)). exact Hin.
Qed.

Lemma CropToTarget_box_holds_keypoints_example :
  CropToTarget.bounding_box (CropToTarget.init 3) (PIL.new "RGB" (100, 100) 0)
    [(5, 9); (7, 30); (40, 12)]%Q
  = Ok ((5 - 3, 9 - 3)%Q, (40 + 3, 30 + 3)%Q)
  /\ (5 - 3 <= 7 <= 40 + 3)%Q /\ (9 - 3 <= 30 <= 30 + 3)%Q.
Proof.
  split; [reflexivity|].
  apply (CropToTarget_box_holds_keypoints (CropToTarget.init 3)
           (PIL.new "RGB" (100, 100) 0) [(5, 9); (7, 30); (40, 12)]%Q
           (5 - 3, 9 - 3)%Q (40 + 3, 30 + 3)%Q (7, 30)%Q).
  - cbn. lia.
  - reflexivity.
  - right. left. reflexivity.
Defined.

(** The crop branch on keypoints that are not negative, with a padding
    that is not negative. *)
Lemma crop_branch_translation box_round (self : CropToTarget.t) (img : Image)
        (tgt : target) (mn mx : keypoint) :
  0 <= CropToTarget.padding self ->
  Forall (fun p => (0 <= fst p)%Q /\ (0 <= snd p)%Q) tgt ->
  CropToTarget.bounding_box self img tgt = Ok (mn, mx) ->
  Qeq_bool (inject_Z (fst (size img))) (fst mx)
  && Qeq_bool (inject_Z (snd (size img))) (snd mx) = false ->
  CropToTarget.call box_round self img tgt
  = Ok (PIL.crop img (box_round (fst mn), box_round (snd mn),
                      box_round (fst mx), box_round (snd mx)),
        map (fun p => (fst p - fst mn, snd p - snd mn)%Q) tgt)
  /\ Forall (fun q => (0 <= fst q <= fst mx - fst mn)%Q
                      /\ (0 <= snd q <= snd mx - snd mn)%Q)
       (map (fun p => (fst p - fst mn, snd p - snd mn)%Q) tgt).
Proof.
  intros Hp Hnn Hbox Hne.
  destruct (bounding_box_facts self img tgt mn mx Hp Hbox) as [Hin Hlow].
  specialize (Hlow Hnn). destruct Hlow as [L1 L2].
  split.
  - rewrite (CropToTarget_call_box box_round self img tgt mn mx Hbox Hne).
    rewrite crop_target_pointwise. f_equal. f_equal.
    apply map_ext_in. intros [x y] Hxy.
    destruct (Hin _ Hxy) as [[A1 A2] [B1 B2]]. cbn [fst snd] in *.
    replace (Qlt_bool (x - fst mn) 0) with false
      by (symmetry; apply Qlt_bool_false; lra).
    replace (Qlt_bool (y - snd mn) 0) with false
      by (symmetry; apply Qlt_bool_false; lra).
    cbn zeta.
    replace (Qlt_bool (fst mx) (x - fst mn)) with false
      by (symmetry; apply Qlt_bool_false; lra).
    replace (Qlt_bool (snd mx) (y - snd mn)) with false
      by (symmetry; apply Qlt_bool_false; lra).
    reflexivity.
  - apply Forall_map. apply Forall_forall. intros [x y] Hxy.
    destruct (Hin _ Hxy) as [[A1 A2] [B1 B2]]. cbn [fst snd] in *.
    repeat split; lra.
Qed.

(** X8.  With a padding that is not negative and keypoints that are not
    negative, the crop branch of [CropToTarget] is a plain translation: every
    keypoint comes back as itself minus the corner of the box, none is set to
    zero, and it lies between 0 and the extent of the box. *)
Theorem CropToTarget_translates box_round (self : CropToTarget.t) (img : Image)
        (tgt : target) (mn mx : keypoint) :
  0 <= CropToTarget.padding self ->
  Forall (fun p => (0 <= fst p)%Q /\ (0 <= snd p)%Q) tgt ->
  CropToTarget.bounding_box self img tgt = Ok (mn, mx) ->
  Qeq_bool (inject_Z (fst (size img))) (fst mx)
  && Qeq_bool (inject_Z (snd (size img))) (snd mx) = false ->
  CropToTarget.call box_round self img tgt
  = Ok (PIL.crop img (box_round (fst mn), box_round (snd mn),
                      box_round (fst mx), box_round (snd mx)),
        map (fun p => (fst p - fst mn, snd p - snd mn)%Q) tgt)
  /\ Forall (fun q => (0 <= fst q <= fst mx - fst mn)%Q
                      /\ (0 <= snd q <= snd mx - snd mn)%Q)
       (map (fun p => (fst p - fst mn, snd p - snd mn)%Q) tgt).
Proof.
  intros Hp Hnn Hbox Hne.
  apply crop_branch_translation; assumption.
Qed.

Lemma CropToTarget_translates_example :
  CropToTarget.call Qfloor (CropToTarget.init 3) (PIL.new "RGB" (100, 100) 0)
    [(5, 9); (7, 30); (40, 12)]%Q
  = Ok (PIL.crop (PIL.new "RGB" (100, 100) 0)
          (Qfloor (5 - 3), Qfloor (9 - 3), Qfloor (40 + 3), Qfloor (30 + 3)),
        map (fun p => (fst p - (5 - 3), snd p - (9 - 3))%Q)
          [(5, 9); (7, 30); (40, 12)]%Q)
  /\ Forall (fun q => (0 <= fst q <= 40 + 3 - (5 - 3))%Q
                      /\ (0 <= snd q <= 30 + 3 - (9 - 3))%Q)
       (map (fun p => (fst p - (5 - 3), snd p - (9 - 3))%Q)
          [(5, 9); (7, 30); (40, 12)]%Q).
Proof.
  apply (CropToTarget_translates Qfloor (CropToTarget.init 3)
           (PIL.new "RGB" (100, 100) 0) [(5, 9); (7, 30); (40, 12)]%Q
           (5 - 3, 9 - 3)%Q (40 + 3, 30 + 3)%Q).
  - cbn. lia.
  - repeat constructor; cbn; discriminate.
  - reflexivity.
  - reflexivity.
Defined.

(** ** RandomCrop *)

(** X9.  When the target fits the (padded) image and the short circuit is
    not taken, [RandomCrop] draws exactly two words, places the window inside
    the image, [0 <= x1 <= w - tw] and [0 <= y1 <= h - th], and returns an
    image of the target size [tw] x [th]. *)
Theorem RandomCrop_window (th tw p : Z) (img : Image) (tgt : target) (g : rng) :
  let padded := if p >? 0 then PIL.expand img p else img in
  let w := fst (size padded) in
  let h := snd (size padded) in
  (w =? th) && (h =? th) = false ->
  0 <= tw <= w -> 0 <= th <= h ->
  exists x1 y1 tgt',
    0 <= x1 <= w - tw /\ 0 <= y1 <= h - th
    /\ RandomCrop.call (RandomCrop.mk [th; tw] p) img tgt g
       = (Ok (PIL.crop padded (x1, y1, x1 + tw, y1 + th), tgt'),
          random.advance (random.advance g))
    /\ size (PIL.crop padded (x1, y1, x1 + tw, y1 + th)) = (tw, th).
Proof.
  intros padded w h Hn Hw Hh.
  pose proof (RandomCrop_crop_branch th tw p img tgt g Hn) as Hcall.
  fold padded in Hcall. fold w in Hcall. fold h in Hcall.
  specialize (Hcall (proj2 Hw) (proj2 Hh)). cbn zeta in Hcall.
  eexists _, _, _. split; [|split; [|split; [exact Hcall|]]].
  - pose proof (Z.mod_pos_bound (random.word g) (w - tw + 1)). lia.
  - pose proof (Z.mod_pos_bound (random.word (random.advance g)) (h - th + 1)). lia.
  - cbn [PIL.crop size]. f_equal; lia.
Qed.

Lemma RandomCrop_window_example :
  exists x1 y1 tgt',
    0 <= x1 <= 20 - 10 /\ 0 <= y1 <= 30 - 8
    /\ RandomCrop.call (RandomCrop.mk [8; 10] 0) (PIL.new "L" (20, 30) 0)
         [(3, 4)%Q] (rng_of [7; 45])
       = (Ok (PIL.crop (PIL.new "L" (20, 30) 0) (x1, y1, x1 + 10, y1 + 8), tgt'),
          random.advance (random.advance (rng_of [7; 45])))
    /\ size (PIL.crop (PIL.new "L" (20, 30) 0) (x1, y1, x1 + 10, y1 + 8)) = (10, 8).
Proof.
  apply (RandomCrop_window 8 10 0 (PIL.new "L" (20, 30) 0) [(3, 4)%Q] (rng_of [7; 45]));
    cbn; first [reflexivity | lia].
Defined.

(** X10.  A target that is wider or higher than the (padded) image makes
    [RandomCrop] fail with [ValueError] (the range of the draw is empty);
    nothing is clamped. *)
Theorem RandomCrop_oversize (th tw p : Z) (img : Image) (tgt : target) (g : rng) :
  let padded := if p >? 0 then PIL.expand img p else img in
  let w := fst (size padded) in
  let h := snd (size padded) in
  (w =? th) && (h =? th) = false ->
  w < tw \/ h < th ->
  fst (RandomCrop.call (RandomCrop.mk [th; tw] p) img tgt g) = Raise ValueError.
Proof.
  intros padded w h Hn Hover.
  unfold RandomCrop.call. cbn [RandomCrop.size RandomCrop.padding].
  fold padded. subst w h. destruct (size padded) as [w h]. cbn [fst snd] in *.
  rewrite Hn. unfold rbind, random.randint, rret.
  destruct (Z.ltb_spec (w - tw) 0) as [Hw | Hw]; [reflexivity|].
  destruct (Z.ltb_spec (h - th) 0) as [Hh | Hh]; [reflexivity | lia].
Qed.

Lemma RandomCrop_oversize_example :
  fst (RandomCrop.call (RandomCrop.mk [8; 32] 2) (PIL.new "L" (20, 30) 0)
         [(3, 4)%Q] (rng_of [7; 45])) = Raise ValueError.
Proof.
  apply (RandomCrop_oversize 8 32 2 (PIL.new "L" (20, 30) 0) [(3, 4)%Q] (rng_of [7; 45])).
  - reflexivity.
  - left. cbn. lia.
Defined.

(** X11.  Without padding, a keypoint that lies in the window drawn by
    [RandomCrop], [x1 <= x <= x1 + tw] and [y1 <= y <= y1 + th], comes back at
    the same index as [(x - x1, y - y1)], inside the frame of the returned
    image. *)
Theorem RandomCrop_keypoint_in_window (th tw : Z) (img : Image) (tgt : target)
        (g : rng) (i : nat) (k : keypoint) :
  let w := fst (size img) in
  let h := snd (size img) in
  (w =? th) && (h =? th) = false ->
  0 <= tw <= w -> 0 <= th <= h ->
  let x1 := random.word g mod (w - tw + 1) in
  let y1 := random.word (random.advance g) mod (h - th + 1) in
  nth_error tgt i = Some k ->
  (inject_Z x1 <= fst k <= inject_Z x1 + inject_Z tw)%Q ->
  (inject_Z y1 <= snd k <= inject_Z y1 + inject_Z th)%Q ->
  exists tgt',
    returned_target (fst (RandomCrop.call (RandomCrop.mk [th; tw] 0) img tgt g))
    = Some tgt'
    /\ nth_error tgt' i = Some (fst k - inject_Z x1, snd k - inject_Z y1)%Q
    /\ in_frame (tw, th) (fst k - inject_Z x1, snd k - inject_Z y1)%Q.
Proof.
  intros w h Hn Hw Hh x1 y1 Hk Hx Hy.
  pose proof (RandomCrop_crop_branch th tw 0 img tgt g) as Hcall.
  cbn [Z.gtb Z.compare] in Hcall. fold w in Hcall. fold h in Hcall.
  specialize (Hcall Hn (proj2 Hw) (proj2 Hh)). cbn zeta in Hcall.
  fold x1 in Hcall. fold y1 in Hcall.
  assert (Hx1 : (0 <= inject_Z x1)%Q).
  { rewrite <- (Zle_Qle 0). subst x1.
    pose proof (Z.mod_pos_bound (random.word g) (w - tw + 1)). lia. }
  assert (Hy1 : (0 <= inject_Z y1)%Q).
  { rewrite <- (Zle_Qle 0). subst y1.
    pose proof (Z.mod_pos_bound (random.word (random.advance g)) (h - th + 1)). lia. }
  assert (Htw : (0 <= inject_Z tw)%Q) by (rewrite <- (Zle_Qle 0); lia).
  assert (Hth : (0 <= inject_Z th)%Q) by (rewrite <- (Zle_Qle 0); lia).
  eexists. rewrite Hcall. cbn [fst returned_target]. split; [reflexivity|].
  split.
  - rewrite crop_target_pointwise, nth_error_map.
    unfold target, keypoint in *. rewrite Hk. cbn [option_map].
    replace (Qlt_bool (fst k - inject_Z x1) 0) with false
      by (symmetry; apply Qlt_bool_false; lra).
    replace (Qlt_bool (snd k - inject_Z y1) 0) with false
      by (symmetry; apply Qlt_bool_false; lra).
    cbn zeta.
    replace (Qlt_bool (inject_Z (x1 + tw)) (fst k - inject_Z x1)) with false
      by (symmetry; apply Qlt_bool_false; rewrite inject_Z_plus; lra).
    replace (Qlt_bool (inject_Z (y1 + th)) (snd k - inject_Z y1)) with false
      by (symmetry; apply Qlt_bool_false; rewrite inject_Z_plus; lra).
    reflexivity.
  - unfold in_frame. cbn [fst snd]. repeat split; lra.
Qed.

Lemma RandomCrop_keypoint_in_window_example :
  exists tgt',
    returned_target (fst (RandomCrop.call (RandomCrop.mk [8; 10] 0)
                            (PIL.new "L" (20, 30) 0) [(1, 1); (12, 9)]%Q
                            (rng_of [7; 3])))
    = Some tgt'
    /\ nth_error tgt' 1 = Some (12 - inject_Z 7, 9 - inject_Z 3)%Q
    /\ in_frame (10, 8) (12 - inject_Z 7, 9 - inject_Z 3)%Q.
Proof.
  apply (RandomCrop_keypoint_in_window 8 10 (PIL.new "L" (20, 30) 0)
           [(1, 1); (12, 9)]%Q (rng_of [7; 3]) 1 (12, 9)%Q).
  - reflexivity.
  - cbn. lia.
  - cbn. lia.
  - reflexivity.
  - cbn. split; discriminate.
  - cbn. split; discriminate.
Defined.

(** X12.  The image [RandomCrop] returns shows the input shifted by the
    padding and the window corner: with padding [p >= 0] and the window drawn
    at [(x1, y1)], the sample of the input image at [(x, y)] is the sample of
    the returned image at [(x + p - x1, y + p - y1)], for every such position
    that lies in the returned image. *)
Theorem RandomCrop_content (th tw p : Z) (img : Image) (tgt : target) (g : rng)
        (x y : Z) (b : nat) :
  let padded := if p >? 0 then PIL.expand img p else img in
  let w := fst (size padded) in
  let h := snd (size padded) in
  0 <= p ->
  (w =? th) && (h =? th) = false ->
  tw <= w -> th <= h ->
  PIL.in_image img x y = true ->
  let x1 := random.word g mod (w - tw + 1) in
  let y1 := random.word (random.advance g) mod (h - th + 1) in
  0 <= x + p - x1 < tw ->
  0 <= y + p - y1 < th ->
  exists out tgt',
    fst (RandomCrop.call (RandomCrop.mk [th; tw] p) img tgt g) = Ok (out, tgt')
    /\ size out = (tw, th)
    /\ getpixel out (x + p - x1) (y + p - y1) b = getpixel img x y b.
Proof.
  intros padded w h Hp Hn Hw Hh Hin x1 y1 Hx Hy.
  pose proof (RandomCrop_crop_branch th tw p img tgt g Hn Hw Hh) as Hcall.
  cbn zeta in Hcall. fold padded w h x1 y1 in Hcall.
  eexists _, _. rewrite Hcall. cbn [fst]. split; [reflexivity|].
  split; [cbn [PIL.crop size]; f_equal; lia|].
  subst padded. destruct (Z.gtb_spec p 0) as [Hpos | Hzero].
  - apply RandomCrop_padded_pixel; assumption.
  - assert (p = 0) by lia. subst p. cbn [PIL.crop getpixel].
    replace (x + 0 - x1 + x1) with x by lia.
    replace (y + 0 - y1 + y1) with y by lia.
    rewrite Hin.
    replace (0 <=? x + 0 - x1) with true by (symmetry; apply Z.leb_le; lia).
    replace (x + 0 - x1 <? Z.max 0 (x1 + tw - x1)) with true
      by (symmetry; apply Z.ltb_lt; lia).
    replace (0 <=? y + 0 - y1) with true by (symmetry; apply Z.leb_le; lia).
    replace (y + 0 - y1 <? Z.max 0 (y1 + th - y1)) with true
      by (symmetry; apply Z.ltb_lt; lia).
    reflexivity.
Qed.

Lemma RandomCrop_content_example :
  exists out tgt',
    fst (RandomCrop.call (RandomCrop.mk [4; 5] 2)
           (mkImage "L" (6, 6) (fun x y _ => inject_Z (x + 10 * y)))
           [(3, 3)%Q] (rng_of [4; 1])) = Ok (out, tgt')
    /\ size out = (5, 4)
    /\ getpixel out (3 + 2 - 4) (2 + 2 - 1) O = inject_Z (3 + 10 * 2).
Proof.
  apply (RandomCrop_content 4 5 2
           (mkImage "L" (6, 6) (fun x y _ => inject_Z (x + 10 * y)))
           [(3, 3)%Q] (rng_of [4; 1]) 3 2 O);
    cbn; first [reflexivity | lia].
Defined.

(** ** RandomHorizontalFlip *)

Lemma RandomHorizontalFlip_call_eq (img : Image) (tgt : target) (g : rng) :
  RandomHorizontalFlip.call img tgt g
  = (Ok (if random.word g <? 2 ^ 52
         then (PIL.flip_left_right img,
               RandomHorizontalFlip.mirror (fst (size img)) tgt)
         else (img, tgt)),
     random.advance g).
Proof.
  unfold RandomHorizontalFlip.call, rbind, random.random, rret.
  rewrite random_below_half.
  destruct (size img) as [w h]. destruct (random.word g <? 2 ^ 52); reflexivity.
Qed.

(** X13.  Two flips in a row restore the image: when both draws select
    the flip, the image has its size, mode and every sample back; every
    keypoint keeps its place and its y, and its x comes back as
    [w - (w - x)]. *)
Theorem RandomHorizontalFlip_twice (img : Image) (tgt : target) (g : rng) :
  random.word g < 2 ^ 52 ->
  random.word (random.advance g) < 2 ^ 52 ->
  exists img2,
    (r <~ RandomHorizontalFlip.call img tgt ;;
     RandomHorizontalFlip.call (fst r) (snd r)) g
    = (Ok (img2,
           map (fun p => (inject_Z (fst (size img))
                          - (inject_Z (fst (size img)) - fst p), snd p)%Q) tgt),
       random.advance (random.advance g))
    /\ size img2 = size img
    /\ mode img2 = mode img
    /\ (forall x y b, getpixel img2 x y b = getpixel img x y b).
Proof.
  intros H1 H2. unfold rbind.
  rewrite RandomHorizontalFlip_call_eq.
  replace (random.word g <? 2 ^ 52) with true by (symmetry; apply Z.ltb_lt; exact H1).
  cbn [fst snd]. rewrite RandomHorizontalFlip_call_eq.
  replace (random.word (random.advance g) <? 2 ^ 52) with true
    by (symmetry; apply Z.ltb_lt; exact H2).
  eexists. split.
  - cbn [PIL.flip_left_right size]. unfold RandomHorizontalFlip.mirror.
    rewrite map_map. reflexivity.
  - split; [reflexivity|]. split; [reflexivity|].
    intros x y b. cbn [PIL.flip_left_right getpixel size].
    f_equal. lia.
Qed.

Lemma RandomHorizontalFlip_twice_example :
  exists img2,
    (r <~ RandomHorizontalFlip.call (mkImage "L" (6, 4) (fun x y _ => inject_Z (x + 10 * y)))
            [(1, 2); (6, 0)]%Q ;;
     RandomHorizontalFlip.call (fst r) (snd r)) (rng_of [5; 17])
    = (Ok (img2,
           map (fun p => (inject_Z 6 - (inject_Z 6 - fst p), snd p)%Q) [(1, 2); (6, 0)]%Q),
       random.advance (random.advance (rng_of [5; 17])))
    /\ size img2 = (6, 4)
    /\ mode img2 = "L"%string
    /\ (forall x y b, getpixel img2 x y b = inject_Z (x + 10 * y)).
Proof.
  apply (RandomHorizontalFlip_twice (mkImage "L" (6, 4) (fun x y _ => inject_Z (x + 10 * y)))
           [(1, 2); (6, 0)]%Q (rng_of [5; 17])); reflexivity.
Defined.

Lemma mirror_in_frame (sz : Z * Z) (k : keypoint) :
  in_frame sz k -> in_frame sz (inject_Z (fst sz) - fst k, snd k)%Q.
Proof.
  unfold in_frame. cbn [fst snd]. intros [[A1 A2] [B1 B2]]. repeat split; lra.
Qed.

(** X14.  Whatever the draw, [RandomHorizontalFlip] returns keypoints that
    lie in the frame of the returned image when the keypoints it was given
    lay in the frame of the input image; the image keeps its size. *)
Theorem RandomHorizontalFlip_keeps_frame (img : Image) (tgt : target) (g : rng) :
  Forall (in_frame (size img)) tgt ->
  exists img' tgt',
    fst (RandomHorizontalFlip.call img tgt g) = Ok (img', tgt')
    /\ size img' = size img
    /\ Forall (in_frame (size img')) tgt'.
Proof.
  intros Hin. rewrite RandomHorizontalFlip_call_eq. cbn [fst].
  destruct (random.word g <? 2 ^ 52).
  - eexists _, _. split; [reflexivity|]. split; [reflexivity|].
    cbn [PIL.flip_left_right size]. unfold RandomHorizontalFlip.mirror.
    apply Forall_map. eapply Forall_impl; [|exact Hin].
    intros k Hk. apply mirror_in_frame. exact Hk.
  - eexists _, _. split; [reflexivity|]. split; [reflexivity | exact Hin].
Qed.

Lemma RandomHorizontalFlip_keeps_frame_example :
  Forall (in_frame (6, 4)) [(1, 2); (6, 0)]%Q
  /\ exists img' tgt',
       fst (RandomHorizontalFlip.call (PIL.new "L" (6, 4) 0) [(1, 2); (6, 0)]%Q
              (rng_of [5])) = Ok (img', tgt')
       /\ size img' = (6, 4)
       /\ Forall (in_frame (size img')) tgt'.
Proof.
  assert (Hin : Forall (in_frame (6, 4)) [(1, 2); (6, 0)]%Q)
    by (repeat constructor; cbn; discriminate).
  split; [exact Hin|].
  apply (RandomHorizontalFlip_keeps_frame (PIL.new "L" (6, 4) 0)
           [(1, 2); (6, 0)]%Q (rng_of [5])).
  exact Hin.
Defined.

(** ** Number of keypoints *)

(** X15.  [CropToTarget], [Scale], [RandomCrop] and [RandomHorizontalFlip]
    return as many keypoints as they were given, whenever they return. *)
Theorem geometric_transforms_keep_count box_round resample
        (c : CropToTarget.t) (s : Scale.t) (r : RandomCrop.t)
        (img : Image) (tgt : target) (g : rng) :
  (forall tgt', returned_target (CropToTarget.call box_round c img tgt) = Some tgt' ->
                List.length tgt' = List.length tgt)
  /\ (forall tgt', returned_target (Scale.call resample s img tgt) = Some tgt' ->
                   List.length tgt' = List.length tgt)
  /\ (forall tgt', returned_target (fst (RandomCrop.call r img tgt g)) = Some tgt' ->
                   List.length tgt' = List.length tgt)
  /\ (forall tgt', returned_target (fst (RandomHorizontalFlip.call img tgt g)) = Some tgt' ->
                   List.length tgt' = List.length tgt).
Proof.
  repeat split; intros tgt' H.
  - unfold CropToTarget.call in H.
    destruct (CropToTarget.bounding_box c img tgt) as [[mn mx]|e]; [|discriminate H].
    cbn [bind] in H. destruct (size img) as [w h].
    match type of H with context [if ?b then _ else _] => destruct b end;
      cbn [returned_target] in H; injection H as <-; [reflexivity|].
    unfold np.where_gt1, np.where_gt0, np.zero_negative, np.isub1, np.isub0.
    rewrite !length_map. reflexivity.
  - unfold Scale.call in H. destruct (Scale.size s) as [n | sw sh];
      destruct (size img) as [w h].
    + match type of H with context [if ?b then _ else _] => destruct b end;
        [cbn [returned_target] in H; injection H as <-; reflexivity|].
      destruct (w <? h); unfold truediv in H;
        match type of H with context [if ?b then _ else _] => destruct b end;
        cbn [bind returned_target] in H; try discriminate H;
        match type of H with context [Scale.resize ?r ?i ?z ?f] =>
          destruct (Scale.resize r i z f) end;
        cbn [bind returned_target] in H; try discriminate H;
        injection H as <-; unfold np.imul1, np.imul0; rewrite !length_map; reflexivity.
    + destruct (Scale.resize resample img (sw, sh) (Scale.interpolation s));
        cbn [bind returned_target] in H; [|discriminate H].
      unfold truediv in H.
      destruct (w =? 0); [discriminate H|]. cbn [bind] in H.
      destruct (h =? 0); [discriminate H|]. cbn [bind returned_target] in H.
      injection H as <-. unfold np.imul1, np.imul0. rewrite !length_map. reflexivity.
  - unfold RandomCrop.call in H.
    destruct (size (if RandomCrop.padding r >? 0
                    then PIL.expand img (RandomCrop.padding r) else img)) as [w h].
    destruct (RandomCrop.size r) as [|th [|tw [|? ?]]]; try discriminate H.
    destruct ((w =? th) && (h =? th));
      [cbn [rret fst returned_target] in H; injection H as <-; reflexivity|].
    unfold rbind, random.randint, rret in H.
    destruct (w - tw <? 0); [discriminate H|].
    destruct (h - th <? 0); [discriminate H|].
    cbn [fst returned_target] in H. injection H as <-.
    unfold np.where_gt1, np.where_gt0, np.zero_negative, np.isub1, np.isub0.
    rewrite !length_map. reflexivity.
  - rewrite RandomHorizontalFlip_call_eq in H. cbn [fst] in H.
    destruct (random.word g <? 2 ^ 52); cbn [returned_target] in H;
      injection H as <-; [|reflexivity].
    unfold RandomHorizontalFlip.mirror. apply length_map.
Qed.

(** ** ToTensor *)

Lemma byte_over_255 (z : Z) :
  0 <= z <= 255 -> (0 <= inject_Z z / 255 <= 1)%Q.
Proof.
  intros Hz.
  assert (H0 : (0 <= inject_Z z)%Q) by (rewrite <- (Zle_Qle 0); lia).
  assert (H1 : (inject_Z z <= 255)%Q)
    by (unfold Qle, inject_Z; cbn [Qnum Qden]; lia).
  split.
  - apply Qle_shift_div_l; [reflexivity | lra].
  - apply Qle_shift_div_r; [reflexivity | lra].
Qed.

Lemma byte_mode_not_integer (m : string) :
  byte_mode m = true ->
  String.eqb m "I" = false /\ String.eqb m "I;16" = false.
Proof.
  intros H. split.
  - destruct (String.eqb_spec m "I") as [-> | _]; [discriminate H | reflexivity].
  - destruct (String.eqb_spec m "I;16") as [-> | _]; [discriminate H | reflexivity].
Qed.

(** X16.  On a non-empty 8-bit PIL image of a byte mode (L, P, RGB, RGBA,
    CMYK, YCbCr, ...) [ToTensor] returns a float tensor of the image's height
    and width whose samples all lie in [0.0, 1.0], for a rounding that is
    monotone and leaves 0 and 1 alone. *)
Theorem ToTensor_unit_range (rnd : Q -> Q) (img : Image) (tgt : target) :
  (forall a b, (a <= b)%Q -> (rnd a <= rnd b)%Q) ->
  (rnd 0 == 0)%Q -> (rnd 1 == 1)%Q ->
  byte_mode (mode img) = true ->
  0 < fst (size img) -> 0 < snd (size img) ->
  eight_bit img ->
  exists t tgt',
    ToTensor.call rnd (PILImage img) tgt = Ok (t, tgt')
    /\ t_dtype t = float32
    /\ t_height t = snd (size img) /\ t_width t = fst (size img)
    /\ forall pl, In pl (planes t) ->
         forall x y, 0 <= x < fst (size img) -> 0 <= y < snd (size img) ->
                     (0 <= pl y x <= 1)%Q.
Proof.
  intros Hmono H0 H1 Hbm _ _ H8.
  destruct (byte_mode_not_integer _ Hbm) as [HI HI16].
  unfold ToTensor.call. rewrite HI, HI16, Hbm. cbn [orb negb t_dtype dtype_eqb].
  eexists _, _. split; [reflexivity|].
  split; [reflexivity|]. split; [reflexivity|]. split; [reflexivity|].
  intros pl Hpl x y Hx Hy.
  cbn [torch.div torch.float torch.pointwise planes t_dtype] in Hpl.
  rewrite !map_map in Hpl. apply in_map_iff in Hpl.
  destruct Hpl as [b [<- Hb]]. apply in_seq in Hb.
  assert (Hlen : (b < String.length (mode img))%nat).
  { destruct (String.eqb_spec (mode img) "YCbCr") as [E | _].
    - rewrite E. cbn [String.length]. lia.
    - lia. }
  destruct (H8 x y b Hx Hy Hlen) as [v [Hv Ev]]. rewrite Ev.
  destruct (byte_over_255 v Hv) as [A B].
  split.
  - rewrite <- H0. apply Hmono. exact A.
  - rewrite <- H1. apply Hmono. exact B.
Qed.

Lemma ToTensor_unit_range_example :
  exists t tgt',
    ToTensor.call (fun q => q) (PILImage (PIL.new "RGB" (3, 2) (inject_Z 200))) [(1, 1)%Q]
    = Ok (t, tgt')
    /\ t_dtype t = float32
    /\ t_height t = 2 /\ t_width t = 3
    /\ forall pl, In pl (planes t) ->
         forall x y, 0 <= x < 3 -> 0 <= y < 2 -> (0 <= pl y x <= 1)%Q.
Proof.
  apply (ToTensor_unit_range (fun q => q) (PIL.new "RGB" (3, 2) (inject_Z 200)) [(1, 1)%Q]).
  - intros a b H. exact H.
  - reflexivity.
  - reflexivity.
  - reflexivity.
  - reflexivity.
  - reflexivity.
  - apply new_eight_bit. lia.
Defined.

Lemma unit_fraction (x : Q) (w : Z) :
  0 < w -> (0 <= x <= inject_Z w)%Q -> (0 <= x / inject_Z w <= 1)%Q.
Proof.
  intros Hw [A B].
  assert (Hwq : (0 < inject_Z w)%Q) by (rewrite (Zlt_Qlt 0 w) in Hw; exact Hw).
  split.
  - apply Qle_shift_div_l; [exact Hwq | lra].
  - apply Qle_shift_div_r; [exact Hwq | lra].
Qed.

(** X17.  On a PIL image with positive sides, of a byte mode or of mode I
    or I;16, [ToTensor] sends keypoints that lie in the frame of the image
    into the unit square. *)
Theorem ToTensor_keypoints_unit_square (rnd : Q -> Q) (img : Image) (tgt : target) :
  byte_mode (mode img) = true \/ mode img = "I"%string \/ mode img = "I;16"%string ->
  0 < fst (size img) -> 0 < snd (size img) ->
  Forall (in_frame (size img)) tgt ->
  exists t tgt',
    ToTensor.call rnd (PILImage img) tgt = Ok (t, tgt')
    /\ List.length tgt' = List.length tgt
    /\ Forall (fun p => (0 <= fst p <= 1)%Q /\ (0 <= snd p <= 1)%Q) tgt'.
Proof.
  intros Hmode Hw Hh Hin. unfold ToTensor.call.
  cbn [t_dtype t_height t_width].
  assert (Hout : Forall (fun p => (0 <= fst p <= 1)%Q /\ (0 <= snd p <= 1)%Q)
                   (np.idiv1 (np.idiv0 tgt (inject_Z (fst (size img))))
                      (inject_Z (snd (size img))))).
  { rewrite idiv_both. apply Forall_map. eapply Forall_impl; [|exact Hin].
    intros [x y] [Hx Hy]. cbn [fst snd] in *.
    split; apply unit_fraction; assumption. }
  assert (Hlen : List.length (np.idiv1 (np.idiv0 tgt (inject_Z (fst (size img))))
                                (inject_Z (snd (size img)))) = List.length tgt).
  { rewrite idiv_both. apply length_map. }
  assert (Hview : String.eqb (mode img) "I" || String.eqb (mode img) "I;16"
                  || byte_mode (mode img) = true).
  { destruct Hmode as [E | [E | E]]; rewrite E; [apply orb_true_r | | ]; reflexivity. }
  rewrite Hview. cbn [negb].
  match goal with |- context [if dtype_eqb ?d uint8 then _ else _] =>
    destruct (dtype_eqb d uint8) end;
    eexists _, _; (split; [reflexivity | split; assumption]).
Qed.

Lemma ToTensor_keypoints_unit_square_example :
  Forall (in_frame (6, 4)) [(3, 4); (6, 0)]%Q
  /\ exists t tgt',
       ToTensor.call (fun q => q) (PILImage (PIL.new "RGB" (6, 4) 0)) [(3, 4); (6, 0)]%Q
       = Ok (t, tgt')
       /\ List.length tgt' = 2%nat
       /\ Forall (fun p => (0 <= fst p <= 1)%Q /\ (0 <= snd p <= 1)%Q) tgt'.
Proof.
  assert (Hin : Forall (in_frame (6, 4)) [(3, 4); (6, 0)]%Q)
    by (repeat constructor; cbn; discriminate).
  split; [exact Hin|].
  apply (ToTensor_keypoints_unit_square (fun q => q) (PIL.new "RGB" (6, 4) 0)
           [(3, 4); (6, 0)]%Q);
    [left; reflexivity | reflexivity | reflexivity | exact Hin].
Defined.


(** ** ToPILImage *)

(** X19.  [ToPILImage] never touches the keypoints: whatever it is given,
    when it returns, it returns the keypoints it received. *)
Theorem ToPILImage_keeps_target (rnd : Q -> Q) (p : pic) (tgt tgt' : target) (img : Image) :
  ToPILImage.call rnd p tgt = Ok (img, tgt') -> tgt' = tgt.
Proof.
  unfold ToPILImage.call. intros H.
  match type of H with
  | match ?n with Array _ => _ | _ => _ end = _ => destruct n as [? | npimg | ?]
  end; try discriminate H.
  destruct (shape_at npimg 2) as [c | e]; [|discriminate H].
  cbn [bind] in H.
  match type of H with
  | (let '(_, _) := ?e in _) = _ => destruct e as [n [m |]]
  end; [|discriminate H].
  destruct (ToPILImage.fromarray n m) as [i | e]; [|discriminate H].
  cbn [bind] in H. injection H as _ <-. reflexivity.
Qed.

Lemma ToPILImage_keeps_target_example :
  exists img,
    ToPILImage.call (fun q => q)
      (TorchTensor (mkTensor float32 [fun _ _ => (1 # 2)%Q] 2 2)) [(1, 1)%Q]
    = Ok (img, [(1, 1)%Q])
    /\ mode img = "L"%string
    /\ [(1, 1)%Q] = [(1, 1)%Q].
Proof.
  eexists. split; [reflexivity|]. split; [reflexivity|].
  eapply (ToPILImage_keeps_target (fun q => q)
            (TorchTensor (mkTensor float32 [fun _ _ => (1 # 2)%Q] 2 2))
            [(1, 1)%Q] [(1, 1)%Q]).
  reflexivity.
Defined.

(** X20.  A non-empty float tensor of one or three planes always goes
    through [ToPILImage]: the image has the tensor's width and height, mode L
    for one plane and RGB for three, and every sample is a byte, the tensor
    value times 255 with the fraction dropped. *)
Theorem ToPILImage_float_tensor (rnd : Q -> Q) (t : Tensor) (tgt : target) :
  t_dtype t = float32 ->
  List.length (planes t) = 1%nat \/ List.length (planes t) = 3%nat ->
  0 < t_height t -> 0 < t_width t ->
  exists img,
    ToPILImage.call rnd (TorchTensor t) tgt = Ok (img, tgt)
    /\ mode img = (if (List.length (planes t) =? 1)%nat then "L" else "RGB")%string
    /\ size img = (t_width t, t_height t)
    /\ forall x y b,
         (b < List.length (planes t))%nat ->
         getpixel img x y b
         = inject_Z (py_int (rnd (nth b (planes t) (fun _ _ => 0%Q) y x * 255)%Q) mod 256)
         /\ 0 <= py_int (rnd (nth b (planes t) (fun _ _ => 0%Q) y x * 255)%Q) mod 256 <= 255.
Proof.
  intros Hd Hn _ _. unfold ToPILImage.call. rewrite Hd. cbn [dtype_eqb].
  unfold shape_at.
  cbn [torch.numpy_hwc shape nth_error bind a_dtype torch.byte torch.mul
       torch.pointwise planes t_dtype t_height t_width].
  rewrite !length_map.
  assert (Hpix : forall b y x,
             (b < List.length (planes t))%nat ->
             nth b (map (fun (p : plane) y x => inject_Z (py_int (p y x) mod 256))
                      (map (fun (p : plane) y x => rnd (p y x * 255)%Q) (planes t)))
                 (fun _ _ => 0%Q) y x
             = inject_Z (py_int (rnd (nth b (planes t) (fun _ _ => 0%Q) y x * 255)%Q)
                         mod 256)).
  { intros b y x Hb. rewrite map_map.
    rewrite (nth_indep _ (fun _ _ => 0%Q)
               ((fun (p : plane) y x => inject_Z (py_int (rnd (p y x * 255)%Q) mod 256))
                  (fun _ _ => 0%Q))) by (rewrite length_map; exact Hb).
    rewrite (map_nth (fun (p : plane) y x => inject_Z (py_int (rnd (p y x * 255)%Q) mod 256))).
    reflexivity. }
  destruct Hn as [E | E]; rewrite E.
  - cbn [Z.of_nat Pos.of_succ_nat Z.eqb Pos.eqb Nat.eqb].
    eexists. split; [reflexivity|]. split; [reflexivity|]. split; [reflexivity|].
    intros x y b Hb. assert (b = O) by lia. subst b.
    split; [| pose proof (Z.mod_pos_bound
                            (py_int (rnd (nth 0 (planes t) (fun _ _ => 0%Q) y x * 255)%Q))
                            256); lia].
    cbn [getpixel ToPILImage.channel0 item String.eqb Ascii.eqb Bool.eqb].
    apply Hpix. lia.
  - cbn [Z.of_nat Pos.of_succ_nat Pos.succ Z.eqb Pos.eqb Nat.eqb dtype_eqb].
    unfold ToPILImage.fromarray.
    cbn [torch.numpy_hwc shape a_dtype torch.byte torch.mul torch.pointwise
         planes t_dtype t_height t_width].
    rewrite !length_map, E.
    cbn [Z.of_nat Pos.of_succ_nat Pos.succ Z.eqb Pos.eqb Z.ltb Z.compare
         Pos.compare Pos.compare_cont String.eqb Ascii.eqb Bool.eqb negb bind].
    eexists. split; [reflexivity|]. split; [reflexivity|]. split; [reflexivity|].
    intros x y b Hb.
    split; [| pose proof (Z.mod_pos_bound
                            (py_int (rnd (nth b (planes t) (fun _ _ => 0%Q) y x * 255)%Q))
                            256); lia].
    cbn [getpixel item].
    apply Hpix. lia.
Qed.

Lemma ToPILImage_float_tensor_example :
  exists img,
    ToPILImage.call (fun q => q)
      (TorchTensor (mkTensor float32 [fun _ _ => (1 # 2)%Q] 3 2)) [(1, 1)%Q]
    = Ok (img, [(1, 1)%Q])
    /\ mode img = "L"%string
    /\ size img = (2, 3)
    /\ forall x y b,
         (b < 1)%nat ->
         getpixel img x y b
         = inject_Z (py_int (nth b [fun _ _ => (1 # 2)%Q] (fun _ _ => 0%Q) y x * 255)%Q
                     mod 256)
         /\ 0 <= py_int (nth b [fun _ _ => (1 # 2)%Q] (fun _ _ => 0%Q) y x * 255)%Q
                 mod 256 <= 255.
Proof.
  apply (ToPILImage_float_tensor (fun q => q)
           (mkTensor float32 [fun _ _ => (1 # 2)%Q] 3 2) [(1, 1)%Q]).
  - reflexivity.
  - left. reflexivity.
  - reflexivity.
  - reflexivity.
Defined.

Lemma int16_unsigned (v : Z) :
  0 <= v < 65536 ->
  Qfloor (as_int16 (inject_Z v)) mod 65536 = v.
Proof.
  intros Hv. unfold as_int16. rewrite !Qfloor_Z.
  destruct (Z_lt_le_dec v 32768) as [Hlo | Hhi].
  - rewrite (Z.mod_small (v + 32768)) by lia.
    replace (v + 32768 - 32768) with v by lia. apply Z.mod_small. lia.
  - replace (v + 32768) with ((v - 32768) + 1 * 65536) by lia.
    rewrite Z.mod_add by lia. rewrite (Z.mod_small (v - 32768)) by lia.
    replace (v - 32768 - 32768) with (v + (-1) * 65536) by lia.
    rewrite Z.mod_add by lia. apply Z.mod_small. lia.
Qed.

(** X21.  For the integer modes nothing is scaled.  On a non-empty image of
    mode I (32-bit samples) the tensor [ToTensor] returns holds the samples,
    on one of mode I;16 (16-bit unsigned samples) it holds them read as
    [int16]; in both cases [ToPILImage] gives back an image of the same mode
    and size with exactly the samples of the input, for any rounding, and the
    keypoints are the input keypoints divided by the width and the height. *)
Theorem ToTensor_ToPILImage_integer_modes (rnd : Q -> Q) (img : Image) (tgt : target) :
  (mode img = "I"%string /\ samples_in (- 2 ^ 31) (2 ^ 31) img)
  \/ (mode img = "I;16"%string /\ samples_in 0 65536 img) ->
  0 < fst (size img) -> 0 < snd (size img) ->
  exists t tgt' out,
    ToTensor.call rnd (PILImage img) tgt = Ok (t, tgt')
    /\ tgt' = map (fun p => (fst p / inject_Z (fst (size img)),
                             snd p / inject_Z (snd (size img)))%Q) tgt
    /\ (forall y x,
          nth 0 (planes t) (fun _ _ => 0%Q) y x
          = if String.eqb (mode img) "I;16"
            then as_int16 (getpixel img x y O) else getpixel img x y O)
    /\ ToPILImage.call rnd (TorchTensor t) tgt' = Ok (out, tgt')
    /\ mode out = mode img
    /\ size out = size img
    /\ forall x y, 0 <= x < fst (size img) -> 0 <= y < snd (size img) ->
                   getpixel out x y O = getpixel img x y O.
Proof.
  intros Hmode Hw Hh. destruct img as [m [w h] px].
  unfold samples_in in Hmode. cbn [mode size fst snd getpixel] in *.
  destruct Hmode as [[-> Hs] | [-> Hs]].
  - eexists _, _, _. split; [reflexivity|]. split; [apply idiv_both|].
    repeat split.
  - eexists _, _, _. split; [reflexivity|]. split; [apply idiv_both|].
    split; [reflexivity|]. split; [reflexivity|].
    split; [reflexivity|]. split; [reflexivity|].
    intros x y Hx Hy. destruct (Hs x y Hx Hy) as [v [Hv Ev]].
    cbn. rewrite Ev. f_equal. apply int16_unsigned. exact Hv.
Qed.

Lemma ToTensor_ToPILImage_integer_modes_example :
  exists t tgt' out,
    ToTensor.call (fun q => q)
      (PILImage (PIL.new "I;16" (3, 2) (inject_Z 40000))) [(1, 1)%Q]
    = Ok (t, tgt')
    /\ tgt' = map (fun p => (fst p / inject_Z 3, snd p / inject_Z 2)%Q) [(1, 1)%Q]
    /\ (forall y x,
          nth 0 (planes t) (fun _ _ => 0%Q) y x
          = if String.eqb "I;16" "I;16"
            then as_int16 (inject_Z 40000) else inject_Z 40000)
    /\ ToPILImage.call (fun q => q) (TorchTensor t) tgt' = Ok (out, tgt')
    /\ mode out = "I;16"%string
    /\ size out = (3, 2)
    /\ forall x y, 0 <= x < 3 -> 0 <= y < 2 -> getpixel out x y O = inject_Z 40000.
Proof.
  apply (ToTensor_ToPILImage_integer_modes (fun q => q)
           (PIL.new "I;16" (3, 2) (inject_Z 40000)) [(1, 1)%Q]).
  - right. split; [reflexivity|].
    intros x y _ _. exists 40000. split; [lia | reflexivity].
  - reflexivity.
  - reflexivity.
Defined.

(** ** CropToTarget, applied twice *)

Lemma Qmax_translate (k2 k q a : Q) :
  (k2 == k - a)%Q -> (Qmax k2 (q - a) == Qmax k q - a)%Q.
Proof.
  intros E.
  destruct (Q.max_spec k q) as [[H1 E1] | [H1 E1]];
    destruct (Q.max_spec k2 (q - a)) as [[H2 E2] | [H2 E2]];
    rewrite E1, E2; lra.
Qed.

Lemma Qmin_translate (k2 k q a : Q) :
  (k2 == k - a)%Q -> (Qmin k2 (q - a) == Qmin k q - a)%Q.
Proof.
  intros E.
  destruct (Q.min_spec k q) as [[H1 E1] | [H1 E1]];
    destruct (Q.min_spec k2 (q - a)) as [[H2 E2] | [H2 E2]];
    rewrite E1, E2; lra.
Qed.

(** The extrema of a translated keypoint array are the translated
    extrema. *)
Lemma np_max_translate (tgt : target) (a b : Q) (mx : keypoint) :
  np.max tgt = Ok mx ->
  exists mx2,
    np.max (map (fun p => (fst p - a, snd p - b)%Q) tgt) = Ok mx2
    /\ (fst mx2 == fst mx - a)%Q /\ (snd mx2 == snd mx - b)%Q.
Proof.
  destruct tgt as [|k l]; [discriminate|].
  cbn [np.max map]. intros H. injection H as <-.
  eexists. split; [reflexivity|].
  assert (G : forall k2 k : keypoint,
             (fst k2 == fst k - a)%Q -> (snd k2 == snd k - b)%Q ->
             let r2 := fold_left (fun m p => (Qmax (fst m) (fst p), Qmax (snd m) (snd p)))
                         (map (fun p => (fst p - a, snd p - b)%Q) l) k2 in
             let r := fold_left (fun m p => (Qmax (fst m) (fst p), Qmax (snd m) (snd p)))
                        l k in
             (fst r2 == fst r - a)%Q /\ (snd r2 == snd r - b)%Q).
  { induction l as [|q l IH]; intros k2 k0 E1 E2; cbn [fold_left map].
    - split; assumption.
    - apply IH; cbn [fst snd]; apply Qmax_translate; assumption. }
  apply G; cbn [fst snd]; reflexivity.
Qed.

Lemma np_min_translate (tgt : target) (a b : Q) (mn : keypoint) :
  np.min tgt = Ok mn ->
  exists mn2,
    np.min (map (fun p => (fst p - a, snd p - b)%Q) tgt) = Ok mn2
    /\ (fst mn2 == fst mn - a)%Q /\ (snd mn2 == snd mn - b)%Q.
Proof.
  destruct tgt as [|k l]; [discriminate|].
  cbn [np.min map]. intros H. injection H as <-.
  eexists. split; [reflexivity|].
  assert (G : forall k2 k : keypoint,
             (fst k2 == fst k - a)%Q -> (snd k2 == snd k - b)%Q ->
             let r2 := fold_left (fun m p => (Qmin (fst m) (fst p), Qmin (snd m) (snd p)))
                         (map (fun p => (fst p - a, snd p - b)%Q) l) k2 in
             let r := fold_left (fun m p => (Qmin (fst m) (fst p), Qmin (snd m) (snd p)))
                        l k in
             (fst r2 == fst r - a)%Q /\ (snd r2 == snd r - b)%Q).
  { induction l as [|q l IH]; intros k2 k0 E1 E2; cbn [fold_left map].
    - split; assumption.
    - apply IH; cbn [fst snd]; apply Qmin_translate; assumption. }
  apply G; cbn [fst snd]; reflexivity.
Qed.

(** With padding 0 the box is the bounding box, up to the value of its
    coordinates. *)
Lemma bounding_box_unpadded (img : Image) (tgt : target) (mn mx mnb mxb : keypoint) :
  np.min tgt = Ok mn -> np.max tgt = Ok mx ->
  CropToTarget.bounding_box (CropToTarget.init 0) img tgt = Ok (mnb, mxb) ->
  (fst mnb == fst mn)%Q /\ (snd mnb == snd mn)%Q
  /\ (fst mxb == fst mx)%Q /\ (snd mxb == snd mx)%Q.
Proof.
  intros Hmn Hmx. unfold CropToTarget.bounding_box. rewrite Hmn, Hmx.
  cbn [bind CropToTarget.padding]. destruct (size img) as [w h].
  match goal with |- context [if ?c then _ else _] => destruct c end;
    intros H; injection H as <- <-; cbn [fst snd]; repeat split;
    first [reflexivity | unfold inject_Z; ring].
Qed.

(** X22.  [CropToTarget] without padding, on keypoints that are not
    negative and a box whose corners are whole pixels that [Image.crop]
    keeps: a second application to the result changes nothing, the box of
    the re-based keypoints ends at the lower right corner of the cropped
    image. *)
Theorem CropToTarget_twice box_round (img img' : Image) (tgt tgt' : target)
        (mn mx : keypoint) :
  Forall (fun p => (0 <= fst p)%Q /\ (0 <= snd p)%Q) tgt ->
  CropToTarget.bounding_box (CropToTarget.init 0) img tgt = Ok (mn, mx) ->
  (inject_Z (box_round (fst mn)) == fst mn)%Q ->
  (inject_Z (box_round (snd mn)) == snd mn)%Q ->
  (inject_Z (box_round (fst mx)) == fst mx)%Q ->
  (inject_Z (box_round (snd mx)) == snd mx)%Q ->
  CropToTarget.call box_round (CropToTarget.init 0) img tgt = Ok (img', tgt') ->
  CropToTarget.call box_round (CropToTarget.init 0) img' tgt' = Ok (img', tgt').
Proof.
  intros Hnn Hbox R1 R2 R3 R4 Hcall.
  destruct (Qeq_bool (inject_Z (fst (size img))) (fst mx)
            && Qeq_bool (inject_Z (snd (size img))) (snd mx)) eqn:Hsc.
  - (* the first call already returned its arguments *)
    assert (E : CropToTarget.call box_round (CropToTarget.init 0) img tgt = Ok (img, tgt)).
    { unfold CropToTarget.call. rewrite Hbox. cbn [bind].
      destruct (size img) as [w h]. cbn [fst snd] in Hsc. rewrite Hsc. reflexivity. }
    rewrite E in Hcall. injection Hcall as <- <-. exact E.
  - destruct (crop_branch_translation box_round (CropToTarget.init 0) img tgt mn mx
                (Z.le_refl 0) Hnn Hbox Hsc) as [E _].
    rewrite E in Hcall. clear E.
    assert (Ei : img' = PIL.crop img (box_round (fst mn), box_round (snd mn),
                                      box_round (fst mx), box_round (snd mx)))
      by congruence.
    assert (Et : tgt' = map (fun p => (fst p - fst mn, snd p - snd mn)%Q) tgt)
      by congruence.
    subst img' tgt'. clear Hcall.
    destruct tgt as [|k l]; [discriminate Hbox|].
    destruct (np.min (k :: l)) as [mn0|] eqn:Emn; [|discriminate Emn].
    destruct (np.max (k :: l)) as [mx0|] eqn:Emx; [|discriminate Emx].
    destruct (bounding_box_unpadded img (k :: l) mn0 mx0 mn mx Emn Emx Hbox)
      as (B1 & B2 & B3 & B4).
    destruct (np_max_translate (k :: l) (fst mn) (snd mn) mx0 Emx) as (mx2 & Emx2 & M1 & M2).
    destruct (np_min_translate (k :: l) (fst mn) (snd mn) mn0 Emn) as (mn2 & Emn2 & N1 & N2).
    destruct (bounding_box_facts (CropToTarget.init 0) img (k :: l) mn mx
                (Z.le_refl 0) Hbox) as [Hin _].
    destruct (Hin k (or_introl eq_refl)) as [[A1 A2] [A3 A4]].
    assert (Hx : box_round (fst mn) <= box_round (fst mx))
      by (rewrite Zle_Qle, R1, R3; lra).
    assert (Hy : box_round (snd mn) <= box_round (snd mx))
      by (rewrite Zle_Qle, R2, R4; lra).
    set (tgt2 := map (fun p => (fst p - fst mn, snd p - snd mn)%Q) (k :: l)) in *.
    set (img2 := PIL.crop img (box_round (fst mn), box_round (snd mn),
                               box_round (fst mx), box_round (snd mx))).
    assert (Hsz : size img2 = (box_round (fst mx) - box_round (fst mn),
                               box_round (snd mx) - box_round (snd mn))).
    { subst img2. cbn [PIL.crop size]. f_equal; lia. }
    clearbody img2 tgt2.
    assert (W : (inject_Z (box_round (fst mx) - box_round (fst mn)) == fst mx2)%Q).
    { unfold Z.sub. rewrite inject_Z_plus, inject_Z_opp, R1, R3, M1, B3. ring. }
    assert (H : (inject_Z (box_round (snd mx) - box_round (snd mn)) == snd mx2)%Q).
    { unfold Z.sub. rewrite inject_Z_plus, inject_Z_opp, R2, R4, M2, B4. ring. }
    unfold CropToTarget.call, CropToTarget.bounding_box.
    rewrite Emx2, Emn2. cbn [bind CropToTarget.padding]. rewrite Hsz.
    match goal with |- context [if negb ?c then _ else _] => destruct (negb c) end;
      cbn [bind fst snd].
    + replace (Qeq_bool (inject_Z (box_round (fst mx) - box_round (fst mn)))
                 (fst mx2 + inject_Z 0)) with true
        by (symmetry; apply Qeq_bool_iff; rewrite W; unfold inject_Z; ring).
      replace (Qeq_bool (inject_Z (box_round (snd mx) - box_round (snd mn)))
                 (snd mx2 + inject_Z 0)) with true
        by (symmetry; apply Qeq_bool_iff; rewrite H; unfold inject_Z; ring).
      reflexivity.
    + replace (Qeq_bool (inject_Z (box_round (fst mx) - box_round (fst mn)))
                 (fst mx2)) with true
        by (symmetry; apply Qeq_bool_iff; exact W).
      replace (Qeq_bool (inject_Z (box_round (snd mx) - box_round (snd mn)))
                 (snd mx2)) with true
        by (symmetry; apply Qeq_bool_iff; exact H).
      reflexivity.
Qed.

Lemma CropToTarget_twice_example :
  exists img' tgt',
    CropToTarget.call Qfloor (CropToTarget.init 0) (PIL.new "RGB" (100, 100) 0)
      [(5, 9); (7, 30); (40, 12)]%Q = Ok (img', tgt')
    /\ size img' = (35, 21)
    /\ CropToTarget.call Qfloor (CropToTarget.init 0) img' tgt' = Ok (img', tgt').
Proof.
  eexists _, _. split; [reflexivity|]. split; [reflexivity|].
  apply (CropToTarget_twice Qfloor (PIL.new "RGB" (100, 100) 0) _
           [(5, 9); (7, 30); (40, 12)]%Q _ (5 - 0, 9 - 0)%Q (40 + 0, 30 + 0)%Q).
  - repeat constructor; cbn; discriminate.
  - reflexivity.
  - reflexivity.
  - reflexivity.
  - reflexivity.
  - reflexivity.
  - reflexivity.
Defined.

(** ** Compose *)

(** X24.  A pipeline stops at the first stage that raises: the exception
    and the generator state are those of the failing prefix, whatever stages
    follow. *)
Theorem Compose_fail_fast (ts1 ts2 : list Transform) (img : pic) (tgt : target)
        (g g' : rng) (e : exn) :
  Compose.call ts1 img tgt g = (Raise e, g') ->
  Compose.call (ts1 ++ ts2) img tgt g = (Raise e, g').
Proof.
  revert img tgt g. induction ts1 as [|t ts1 IH]; intros img tgt g H.
  - discriminate H.
  - cbn [app Compose.call] in *. unfold rbind in *.
    destruct (t img tgt g) as [[r | e0] g0]; [apply IH; exact H | exact H].
Qed.

Lemma Compose_fail_fast_example :
  Compose.call ([ToTensor_stage (fun q => q); ToTensor_stage (fun q => q)]
                ++ [ToPILImage_stage (fun q => q)])
    (PILImage (PIL.new "L" (2, 2) 0)) [(1, 1)%Q] (rng_of [])
  = (Raise AttributeError, rng_of []).
Proof.
  apply (Compose_fail_fast [ToTensor_stage (fun q => q); ToTensor_stage (fun q => q)]
           [ToPILImage_stage (fun q => q)]
           (PILImage (PIL.new "L" (2, 2) 0)) [(1, 1)%Q] (rng_of []) (rng_of [])
           AttributeError).
  reflexivity.
Defined.

(** ** ToPILImage on arrays *)

(** X25.  [ToPILImage] on a numpy array.  Without a third dimension the
    call fails with [IndexError].  On a non-empty H x W x C array it returns
    an image
    of size (W, H): for one channel of dtype uint8, int16, int32 or float32,
    of mode L, I;16, I or F; for three or more channels of dtype uint8, of
    mode RGB.  A uint8 array of 0 or 2 channels is refused by
    [Image.fromarray] with [ValueError]; every other dtype fails the final
    assertion. *)
Theorem ToPILImage_array_modes (rnd : Q -> Q) (a : ndarray) (tgt : target) :
  ((List.length (shape a) < 3)%nat ->
   ToPILImage.call rnd (Array a) tgt = Raise IndexError)
  /\ forall h w c,
       shape a = [h; w; c] -> 0 < h -> 0 < w ->
       let expected :=
         if c =? 1 then
           match a_dtype a with
           | uint8 => Ok "L"%string | int16 => Ok "I;16"%string
           | int32 => Ok "I"%string | float32 => Ok "F"%string
           | _ => Raise AssertionError
           end
         else
           match a_dtype a with
           | uint8 => if c <? 3 then Raise ValueError else Ok "RGB"%string
           | _ => Raise AssertionError
           end in
       match expected with
       | Ok m => exists img, ToPILImage.call rnd (Array a) tgt = Ok (img, tgt)
                             /\ mode img = m
                             /\ size img = (w, h)
       | Raise e => ToPILImage.call rnd (Array a) tgt = Raise e
       end.
Proof.
  split.
  - intros Hlen. unfold ToPILImage.call, shape_at.
    destruct (shape a) as [|h [|w [|c rest]]]; cbn [List.length] in Hlen;
      try lia; reflexivity.
  - intros h w c Es _ _. unfold ToPILImage.call, shape_at. rewrite Es.
    cbn [nth_error bind].
    destruct (c =? 1) eqn:Ec.
    + unfold ToPILImage.fromarray.
      cbn [ToPILImage.channel0 a_dtype shape]. rewrite Es.
      cbn [firstn skipn app].
      destruct (a_dtype a); cbn [dtype_eqb]; try reflexivity;
        (eexists; split; [reflexivity|]; split; reflexivity).
    + unfold ToPILImage.fromarray. rewrite Es.
      destruct (a_dtype a); cbn [dtype_eqb]; try reflexivity.
      cbn [String.eqb Ascii.eqb Bool.eqb negb].
      destruct (c <? 3); [reflexivity|].
      destruct (c =? 3); eexists; (split; [reflexivity|]; split; reflexivity).
Qed.

Lemma ToPILImage_array_modes_example :
  (exists img,
     ToPILImage.call (fun q => q)
       (Array (mkArray uint8 [2; 3; 3] (fun _ _ _ => 7%Q))) [(1, 1)%Q]
     = Ok (img, [(1, 1)%Q])
     /\ mode img = "RGB"%string /\ size img = (3, 2))
  /\ ToPILImage.call (fun q => q)
       (Array (mkArray uint8 [2; 3; 2] (fun _ _ _ => 7%Q))) [(1, 1)%Q]
     = Raise ValueError.
Proof.
  split.
  - apply (proj2 (ToPILImage_array_modes (fun q => q)
                    (mkArray uint8 [2; 3; 3] (fun _ _ _ => 7%Q)) [(1, 1)%Q])
             2 3 3 eq_refl eq_refl eq_refl).
  - reflexivity.
Defined.
